(** * Jib auto-sync planner: pkg/skaffold/build/jib/sync.go

    A shallow embedding of the sync-map store, of [InitSync], of
    [GetSyncDiff] and of the adapter [getSyncMapFromSystem], followed by
    the properties of the planner.

    Go maps are reference values: [currSyncMap := syncLists[key]] aliases
    the map object held by the store, and [currSyncMap[f] = val] writes
    through to it.  The embedding therefore keeps a heap of map objects
    and lets the store hold references into it. *)

From Stdlib Require Import ZArith Strings.Byte.
From stdpp Require Import base option list strings gmap fin_maps.

Set Default Proof Using "Type".
Set Warnings "-clear-no-such-hyp".

(** ** Data model *)

(** [type projectKey string]; its constructor [getProjectKey] lives in
    another file of the package and is taken through [Env]. *)
Definition projectKey := string.

(** [time.Time], compared with [!=] only. *)
Definition Time := Z.

Record SyncEntry := {
  Dest : list string;
  FileTime : Time;
  IsDirect : bool
}.

Abbreviation SyncMap := (gmap string SyncEntry).

Module JSONSyncEntry.
Record t := { Src : string; Dest : string }.
End JSONSyncEntry.

Record JSONSyncMap := {
  Direct : list JSONSyncEntry.t;
  Generated : list JSONSyncEntry.t
}.

(** [filemon.Events]: three slices of paths. *)
Record Events := {
  Added : list string;
  Modified : list string;
  Deleted : list string
}.

(** Error values, built the way github.com/pkg/errors builds them. *)
Inductive error :=
| External (msg : string)
| WithStack (e : error)
| Wrap (e : error) (msg : string)
| New (msg : string)
| Errorf (format arg : string).

#[global] Instance byte_eq_decision : EqDecision byte := Byte.byte_eq_dec.

(** A Go [(T, error)] pair. *)
Inductive result (T : Type) :=
| Ok (x : T)
| Err (e : error).
Arguments Ok {T} x.
Arguments Err {T} e.

Inductive PluginType := JibMaven | JibGradle | UnknownPlugin.

(** [*exec.Cmd], kept as its argument vector. *)
Definition Cmd := list string.

(** What one call observes of the world outside this file: the
    collaborators of the package ([getProjectKey], [GetBuildDefinitions],
    [DeterminePluginType], the two command builders, [util.RunCmdOut]) and
    the library calls on the file system and on JSON. *)
Record Env := {
  workspace : string;
  getProjectKey : projectKey;
  GetBuildDefinitions : list string;
  IsAbs : string → bool;
  Abs : string → result string;
  Stat : string → result Time;
  DeterminePluginType : result PluginType;
  getSyncMapCommandMaven : Cmd;
  getSyncMapCommandGradle : Cmd;
  RunCmdOut : Cmd → result (list byte);
  jsonUnmarshal : list byte → result JSONSyncMap
}.

(** ** The store *)

(** Address of a map object. *)
Definition ref := positive.

(** What the program does that a caller can observe besides its result. *)
Inductive Effect :=
| Println (msg : string) (arg : option SyncMap)
| Call_getSyncMapFunc.

Record State := {
  heap : gmap ref SyncMap;
  syncLists : gmap projectKey ref;
  trace : list Effect
}.

(** [var syncLists = map[projectKey]SyncMap{}] *)
Definition initState : State :=
  {| heap := ∅; syncLists := ∅; trace := [] |}.

Definition setHeap (h : gmap ref SyncMap) (s : State) : State :=
  {| heap := h; syncLists := syncLists s; trace := trace s |}.

Definition emit (ef : Effect) (s : State) : State :=
  {| heap := heap s; syncLists := syncLists s; trace := trace s ++ [ef] |}.

(** [m[k]] with the comma-ok form: a nil map has no key. *)
Definition mapIndex (h : gmap ref SyncMap) (r : option ref) (k : string)
  : option SyncEntry :=
  l ← r; m ← h !! l; m !! k.

(** [m[k] = v].  Go panics when [m] is nil; [GetSyncDiff] assigns only
    into the map it has just found [k] in ([mapAssign_indexed] below), so
    the nil case is left as a no-op. *)
Definition mapAssign (h : gmap ref SyncMap) (r : option ref) (k : string)
    (v : SyncEntry) : gmap ref SyncMap :=
  match r with
  | Some l =>
      match h !! l with
      | Some m => <[l := <[k := v]> m]> h
      | None => h
      end
  | None => h
  end.

(** The entries of a map value; nil has none. *)
Definition mapContents (h : gmap ref SyncMap) (r : option ref) : SyncMap :=
  default ∅ (l ← r; h !! l).

(** [syncLists[key] = m] for a map [m] made by the callee: a new object. *)
Definition storeNew (key : projectKey) (m : SyncMap) (s : State) : State :=
  let l := fresh (dom (heap s)) in
  {| heap := <[l := m]> (heap s);
     syncLists := <[key := l]> (syncLists s);
     trace := trace s |}.

(** The snapshot the store holds for a key. *)
Definition cached (s : State) (key : projectKey) : option SyncMap :=
  l ← syncLists s !! key; heap s !! l.

(** ** InitSync

    [getSyncMapFunc] is the package variable of line 149, which the tests
    replace; the functions below take it as an argument.  Its declared
    value is [getSyncMap]. *)

Definition InitSync (getSyncMapFunc : Env → result SyncMap) (env : Env)
    (s : State) : State * option error :=
  let s := emit Call_getSyncMapFunc s in
  match getSyncMapFunc env with
  | Err err => (s, Some err)
  | Ok syncMap => (storeNew (getProjectKey env) syncMap s, None)
  end.

(** ** GetSyncDiff *)

Definition toAbs (env : Env) (f : string) : result string :=
  if negb (IsAbs env f) then
    match Abs env f with
    | Err err => Err (WithStack err)
    | Ok af => Ok af
    end
  else Ok f.

(** The three values [GetSyncDiff] returns; [None] is a nil map. *)
Record Diff := {
  toCopy : option (gmap string (list string));
  toDelete : option (gmap string (list string));
  err : option error
}.

Definition noSync : Diff :=
  {| toCopy := None; toDelete := None; err := None |}.

Definition failed (e : error) : Diff :=
  {| toCopy := None; toDelete := None; err := Some e |}.

(** [for _, bf := range buildFiles { if f == bf { return ... } }] *)
Fixpoint isBuildFile (f : string) (buildFiles : list string) : bool :=
  match buildFiles with
  | [] => false
  | bf :: rest => if bool_decide (f = bf) then true else isBuildFile f rest
  end.

Inductive GuardResult :=
| GuardError (e : error)
| GuardRebuild
| GuardPass.

(** Lines 70-80: the loop over [e.Modified]. *)
Fixpoint buildFileGuard (env : Env) (buildFiles modified : list string)
  : GuardResult :=
  match modified with
  | [] => GuardPass
  | f :: rest =>
      match toAbs env f with
      | Err e => GuardError (WithStack e)
      | Ok f =>
          if isBuildFile f buildFiles then GuardRebuild
          else buildFileGuard env buildFiles rest
      end
  end.

Inductive LoopResult :=
| LoopError (h : gmap ref SyncMap) (e : error)
| LoopEnd (h : gmap ref SyncMap) (matches : gmap string (list string)).

(** Lines 94-114: the loop of the direct fast path.  [break] and running
    out of paths both end in [LoopEnd]; the heap carries the entries
    already refreshed. *)
Fixpoint directLoop (env : Env) (h : gmap ref SyncMap)
    (currSyncMap : option ref) (matches : gmap string (list string))
    (modified : list string) : LoopResult :=
  match modified with
  | [] => LoopEnd h matches
  | f :: rest =>
      match toAbs env f with
      | Err e => LoopError h (WithStack e)
      | Ok f =>
          match mapIndex h currSyncMap f with
          | Some val =>
              if negb (IsDirect val) then LoopEnd h matches
              else
                let matches := <[f := Dest val]> matches in
                match Stat env f with
                | Err e =>
                    LoopError h (Wrap e "could not obtain file mod time")
                | Ok modTime =>
                    let val := {| Dest := Dest val;
                                  FileTime := modTime;
                                  IsDirect := IsDirect val |} in
                    directLoop env (mapAssign h currSyncMap f val)
                      currSyncMap matches rest
                end
          | None => LoopEnd h matches
          end
      end
  end.

Inductive FastPath :=
| Return (s : State) (d : Diff)
| FallThrough (s : State).

(** Lines 92-118. *)
Definition directFastPath (env : Env) (e : Events) (s : State)
    (currSyncMap : option ref) : FastPath :=
  if (length (Deleted e) =? 0)%nat && (length (Added e) =? 0)%nat then
    match directLoop env (heap s) currSyncMap ∅ (Modified e) with
    | LoopError h e => Return (setHeap h s) (failed e)
    | LoopEnd h matches =>
        if (size matches =? length (Modified e))%nat then
          Return (setHeap h s)
            {| toCopy := Some matches; toDelete := None; err := None |}
        else FallThrough (setHeap h s)
    end
  else FallThrough s.

(** Lines 130-142: the loop over the new map. *)
Definition syncMapDiff (nextSyncMap currSyncMap : SyncMap)
  : gmap string (list string) :=
  map_fold (λ k v toCopy,
    match currSyncMap !! k with
    | Some curr =>
        if bool_decide (FileTime v ≠ FileTime curr)
        then <[k := Dest v]> toCopy
        else toCopy
    | None => <[k := Dest v]> toCopy
    end) ∅ nextSyncMap.

(** Lines 120-144. *)
Definition fullRecompute (getSyncMapFunc : Env → result SyncMap)
    (env : Env) (s : State) (currSyncMap : option ref) : State * Diff :=
  let s := emit Call_getSyncMapFunc s in
  match getSyncMapFunc env with
  | Err err => (s, failed err)
  | Ok nextSyncMap =>
      let s := storeNew (getProjectKey env) nextSyncMap s in
      let s := emit (Println "curr" (Some (mapContents (heap s) currSyncMap))) s in
      let s := emit (Println "next" (Some nextSyncMap)) s in
      let toCopy := syncMapDiff nextSyncMap (mapContents (heap s) currSyncMap) in
      (s, {| toCopy := Some toCopy; toDelete := None; err := None |})
  end.

Definition GetSyncDiff (getSyncMapFunc : Env → result SyncMap) (env : Env)
    (e : Events) (s : State) : State * Diff :=
  let buildFiles := GetBuildDefinitions env in
  match buildFileGuard env buildFiles (Modified e) with
  | GuardError err => (s, failed err)
  | GuardRebuild => (s, noSync)
  | GuardPass =>
      if negb (length (Deleted e) =? 0)%nat then
        (emit (Println "Deletions are not supported by jib auto sync at the moment" None) s,
         noSync)
      else
        let currSyncMap := syncLists s !! getProjectKey env in
        match directFastPath env e s currSyncMap with
        | Return s d => (s, d)
        | FallThrough s => fullRecompute getSyncMapFunc env s currSyncMap
        end
  end.

(** ** The adapter: getSyncMap and getSyncMapFromSystem *)

Definition getSyncMapCommand (env : Env) : result Cmd :=
  match DeterminePluginType env with
  | Err err => Err err
  | Ok t =>
      match t with
      | JibMaven => Ok (getSyncMapCommandMaven env)
      | JibGradle => Ok (getSyncMapCommandGradle env)
      | _ => Err (Errorf "unable to determine Jib builder type for %s"
                    (workspace env))
      end
  end.

Definition bytesOf (s : string) : list byte := String.list_byte_of_string s.

Definition LF : byte := x0a.
Definition CR : byte := x0d.

(** The regular expression of line 192,
      BEGIN JIB JSON(?:: SYNCMAP/1)?\r?\n({.*})
    run the way Go's regexp package runs it: leftmost start first and, at
    one start, the greedy choices first.  [.] is any byte but a line
    feed.  Each matcher consumes a prefix of its input and yields the
    bytes of the capture group. *)
Module Regexp.

Fixpoint literal (p s : list byte) : option (list byte) :=
  match p, s with
  | [], _ => Some s
  | a :: p, b :: s => if Byte.eqb a b then literal p s else None
  | _ :: _, [] => None
  end.

(** [.*}] : take one more byte if the rest still matches, else close. *)
Fixpoint dotStarBrace (s : list byte) : option (list byte) :=
  match s with
  | [] => None
  | b :: rest =>
      if Byte.eqb b LF then None
      else
        match dotStarBrace rest with
        | Some g => Some (b :: g)
        | None => if Byte.eqb b x7d then Some [b] else None
        end
  end.

(** [\n({.*})] *)
Definition newlineGroup (s : list byte) : option (list byte) :=
  s ← literal [LF] s;
  s ← literal [x7b] s;
  g ← dotStarBrace s;
  Some (x7b :: g).

(** [\r?\n({.*})] *)
Definition crNewlineGroup (s : list byte) : option (list byte) :=
  match literal [CR] s ≫= newlineGroup with
  | Some g => Some g
  | None => newlineGroup s
  end.

(** The whole expression, anchored at the head of [s]. *)
Definition matchHere (s : list byte) : option (list byte) :=
  s ← literal (bytesOf "BEGIN JIB JSON") s;
  match literal (bytesOf ": SYNCMAP/1") s ≫= crNewlineGroup with
  | Some g => Some g
  | None => crNewlineGroup s
  end.

(** [FindSubmatch], reduced to [matches[1]]; [None] is no match. *)
Fixpoint FindSubmatch (s : list byte) : option (list byte) :=
  match matchHere s with
  | Some g => Some g
  | None =>
      match s with
      | [] => None
      | _ :: rest => FindSubmatch rest
      end
  end.

End Regexp.

(** [bytes.Replace(s, old, new, -1)] for a one-byte [old]. *)
Definition bytesReplace (s : list byte) (old : byte) (new : list byte)
  : list byte :=
  s ≫= λ b, if Byte.eqb b old then new else [b].

(** Lines 203-213 and 214-224: one loop for each list of the payload,
    alike but for the flag. *)
Fixpoint addEntries (env : Env) (isDirect : bool)
    (entries : list JSONSyncEntry.t) (sm : SyncMap) : result SyncMap :=
  match entries with
  | [] => Ok sm
  | de :: rest =>
      match Stat env (JSONSyncEntry.Src de) with
      | Err err => Err (Wrap err "could not obtain file mod time")
      | Ok modTime =>
          addEntries env isDirect rest
            (<[JSONSyncEntry.Src de :=
                 {| Dest := [JSONSyncEntry.Dest de];
                    FileTime := modTime;
                    IsDirect := isDirect |}]> sm)
      end
  end.

Definition getSyncMapFromSystem (env : Env) (cmd : Cmd) : result SyncMap :=
  match RunCmdOut env cmd with
  | Err err => Err (Wrap err "failed to get Jib sync map")
  | Ok stdout =>
      match Regexp.FindSubmatch stdout with
      | None => Err (New "failed to get Jib Sync data")
      | Some group =>
          let line := bytesReplace group x5c [x5c; x5c] in
          match jsonUnmarshal env line with
          | Err err => Err (WithStack err)
          | Ok jsm =>
              match addEntries env true (Direct jsm) ∅ with
              | Err err => Err err
              | Ok sm => addEntries env false (Generated jsm) sm
              end
          end
      end
  end.

Definition getSyncMap (env : Env) : result SyncMap :=
  match getSyncMapCommand env with
  | Err err => Err (WithStack err)
  | Ok cmd =>
      match getSyncMapFromSystem env cmd with
      | Err err => Err (WithStack err)
      | Ok sm => Ok sm
      end
  end.

(** ** Vocabulary of the properties *)

(** How many times the mapping computation was invoked along a trace. *)
Fixpoint calls (t : list Effect) : nat :=
  match t with
  | [] => 0
  | Call_getSyncMapFunc :: t => S (calls t)
  | Println _ _ :: t => calls t
  end.

(** The store never holds a reference to a map that does not exist, and
    no two project keys hold the same map object. *)
Definition wfState (s : State) : Prop :=
  (∀ key l, syncLists s !! key = Some l → is_Some (heap s !! l)) ∧
  (∀ key1 key2 l,
     syncLists s !! key1 = Some l → syncLists s !! key2 = Some l →
     key1 = key2).

(** [v'] is [v] with, at most, a newer [FileTime]; only a direct entry
    may have its time changed. *)
Definition sameButTime (v v' : SyncEntry) : Prop :=
  Dest v' = Dest v ∧ IsDirect v' = IsDirect v ∧
  (FileTime v' ≠ FileTime v → IsDirect v = true).

Definition mapRefresh (m m' : SyncMap) : Prop :=
  ∀ k, option_Forall2 sameButTime (m !! k) (m' !! k).

(** [h'] is [h] after in-place refreshes of the map object [r]: the same
    objects, all but [r] untouched. *)
Definition heapRefresh (r : option ref) (h h' : gmap ref SyncMap) : Prop :=
  ∀ l, option_Forall2 mapRefresh (h !! l) (h' !! l) ∧
       (r ≠ Some l → h' !! l = h !! l).

Definition loopHeap (r : LoopResult) : gmap ref SyncMap :=
  match r with
  | LoopError h _ => h
  | LoopEnd h _ => h
  end.

(** The states the program can be in, for a given value of the package
    variable [getSyncMapFunc]; the world may differ from call to call. *)
Inductive reachable (getSyncMapFunc : Env → result SyncMap) : State → Prop :=
| reach_init : reachable getSyncMapFunc initState
| reach_InitSync env s :
    reachable getSyncMapFunc s →
    reachable getSyncMapFunc (InitSync getSyncMapFunc env s).1
| reach_GetSyncDiff env e s :
    reachable getSyncMapFunc s →
    reachable getSyncMapFunc (GetSyncDiff getSyncMapFunc env e s).1.

(** What one step of the diff loop adds to [toCopy] for the pair [k], [v]
    of the new map. *)
Definition diffEntry (currSyncMap : SyncMap) (k : string) (v : SyncEntry)
  : option (list string) :=
  match currSyncMap !! k with
  | Some curr =>
      if bool_decide (FileTime v ≠ FileTime curr) then Some (Dest v) else None
  | None => Some (Dest v)
  end.

(** The absolute forms of the paths of a list, those that resolve. *)
Definition absPaths (env : Env) (l : list string) : list string :=
  l ≫= λ f, match toAbs env f with Ok f' => [f'] | Err _ => [] end.

(** The times of a map are those of the files, as [Stat] sees them. *)
Definition statConsistent (env : Env) (m : SyncMap) : Prop :=
  ∀ k v, m !! k = Some v → Stat env k = Ok (FileTime v).

(** Each entry of a map has exactly one destination. *)
Definition oneDest (m : SyncMap) : Prop :=
  ∀ k v, m !! k = Some v → ∃ dst, Dest v = [dst].

(** The marker and, on the next line, a payload between braces on one
    line: what line 192 searches the output for. *)
Definition markerMatch (stdout : list byte) : Prop :=
  ∃ pre version cr body post,
    stdout = pre ++ bytesOf "BEGIN JIB JSON" ++ version ++ cr ++
             [LF] ++ [x7b] ++ body ++ [x7d] ++ post ∧
    (version = [] ∨ version = bytesOf ": SYNCMAP/1") ∧
    (cr = [] ∨ cr = [CR]) ∧
    LF ∉ body.

(** The sources a payload lists. *)
Definition listedSources (jsm : JSONSyncMap) : list string :=
  (JSONSyncEntry.Src <$> Direct jsm) ++ (JSONSyncEntry.Src <$> Generated jsm).

(** Reduce the binds of the option monad and nothing else. *)
Ltac obind := cbn [mbind option_bind].

(** Refreshes compose; the hints name the trivial ones. *)
Create HintDb refresh.

(** The expression of line 192 matched at the head of [s], said without
    the matcher: the marker, the optional version, the optional carriage
    return, the line feed and a payload between braces on one line. *)
Definition payloadAt (s : list byte) : Prop :=
  ∃ version cr body post,
    s = bytesOf "BEGIN JIB JSON" ++ version ++ cr ++
        [LF] ++ [x7b] ++ body ++ [x7d] ++ post ∧
    (version = [] ∨ version = bytesOf ": SYNCMAP/1") ∧
    (cr = [] ∨ cr = [CR]) ∧ LF ∉ body.

(** No closing brace before the end of the line [post] starts with. *)
Definition noBraceOnLine (post : list byte) : Prop :=
  ∀ post1 post2, post = post1 ++ x7d :: post2 → LF ∈ post1.

(** ** A concrete workspace

    The workspace of the examples: [/w] with the build file [/w/pom.xml],
    a direct file [A.txt], a generated file [B.java] and, in the
    interpreter's output, one more direct file [C.txt]. *)
Module Scenario.

(** A payload written with ['] for the double quote. *)
Definition quoted (s : string) : list byte :=
  (λ b, if Byte.eqb b x27 then x22 else b) <$> bytesOf s.

Definition payload : list byte :=
  quoted ("{'direct':[{'src':'/w/A.txt','dest':'/c/A.txt'},"
          +:+ "{'src':'/w/C.txt','dest':'/c/C.txt'}],"
          +:+ "'generated':[{'src':'/w/B.java','dest':'/c/B.class'}]}").

Definition jsm : JSONSyncMap :=
  {| Direct :=
       [ {| JSONSyncEntry.Src := "/w/A.txt"; JSONSyncEntry.Dest := "/c/A.txt" |};
         {| JSONSyncEntry.Src := "/w/C.txt"; JSONSyncEntry.Dest := "/c/C.txt" |} ];
     Generated :=
       [ {| JSONSyncEntry.Src := "/w/B.java"; JSONSyncEntry.Dest := "/c/B.class" |} ] |}.

(** What the interpreter prints on a successful run. *)
Definition stdout : list byte :=
  bytesOf "[INFO] Scanning for projects..." ++ [LF] ++
  bytesOf "BEGIN JIB JSON: SYNCMAP/1" ++ [CR; LF] ++ payload ++ [LF] ++
  bytesOf "[INFO] BUILD SUCCESS" ++ [LF].

(** A file system given by the modification times of its files. *)
Fixpoint statIn (fs : list (string * Time)) (f : string) : result Time :=
  match fs with
  | [] => Err (External "no such file or directory")
  | (g, t) :: fs => if bool_decide (f = g) then Ok t else statIn fs f
  end.

(** [filepath.Abs] with the working directory [/w], and with a working
    directory that cannot be read. *)
Definition absInW (f : string) : result string := Ok ("/w/" +:+ f).
Definition absNoWd (f : string) : result string :=
  Err (External "getwd: no such file or directory").

Definition world (fs : list (string * Time))
    (abs : string → result string) (out : result (list byte)) : Env :=
  {| workspace := "/w";
     getProjectKey := "/w+";
     GetBuildDefinitions := ["/w/pom.xml"];
     IsAbs := String.prefix "/";
     Abs := abs;
     Stat := statIn fs;
     DeterminePluginType := Ok JibMaven;
     getSyncMapCommandMaven := ["mvn"; "jib:_skaffold-sync-map"];
     getSyncMapCommandGradle := ["gradle"; "_jibSkaffoldSyncMap"];
     RunCmdOut := λ _, out;
     jsonUnmarshal := λ line,
       if bool_decide (line = payload) then Ok jsm
       else Err (External "invalid character") |}.

(** The baseline of the specification's scenarios. *)
Definition baseline : SyncMap :=
  <["/w/A.txt" := {| Dest := ["/c/A.txt"]; FileTime := 5%Z; IsDirect := true |}]>
  (<["/w/B.java" := {| Dest := ["/c/B.class"]; FileTime := 5%Z; IsDirect := false |}]> ∅).

(** The store once [InitSync] has installed the baseline. *)
Definition s0 : State :=
  (InitSync (λ _, Ok baseline) (world [] absInW (Ok stdout)) initState).1.

Definition modified (l : list string) : Events :=
  {| Added := []; Modified := l; Deleted := [] |}.

(** The files as they were at the baseline, with [C.txt] created, and
    after [A.txt] and [B.java] were written again. *)
Definition fsOld : list (string * Time) :=
  [("/w/A.txt", 5%Z); ("/w/B.java", 5%Z); ("/w/C.txt", 3%Z)].
Definition fsNew : list (string * Time) :=
  [("/w/A.txt", 7%Z); ("/w/B.java", 9%Z); ("/w/C.txt", 3%Z)].

(** What the interpreter's output and [fsNew] make of the sync map. *)
Definition snapshotNew : SyncMap :=
  <["/w/A.txt" := {| Dest := ["/c/A.txt"]; FileTime := 7%Z; IsDirect := true |}]>
  (<["/w/C.txt" := {| Dest := ["/c/C.txt"]; FileTime := 3%Z; IsDirect := true |}]>
  (<["/w/B.java" := {| Dest := ["/c/B.class"]; FileTime := 9%Z; IsDirect := false |}]> ∅)).

End Scenario.

(** ** A second project beside the first *)
Module Scenario2.

(** The world of [/v], another workspace of the same process. *)
Definition otherWorld : Env :=
  {| workspace := "/v";
     getProjectKey := "/v+";
     GetBuildDefinitions := ["/v/build.gradle"];
     IsAbs := String.prefix "/";
     Abs := λ f, Ok ("/v/" +:+ f);
     Stat := Scenario.statIn [("/v/D.txt", 2%Z)];
     DeterminePluginType := Ok JibGradle;
     getSyncMapCommandMaven := ["mvn"; "jib:_skaffold-sync-map"];
     getSyncMapCommandGradle := ["gradle"; "_jibSkaffoldSyncMap"];
     RunCmdOut := λ _, Err (External "exit status 1");
     jsonUnmarshal := λ _, Err (External "invalid character") |}.

(** The store of [Scenario.s0] after the second project was initialised
    too, through the same stand-in for the mapping computation. *)
Definition s0both : State :=
  (InitSync (λ _, Ok Scenario.baseline) otherWorld Scenario.s0).1.

(** A store in which nothing was ever initialised for [/w]. *)
Definition sOther : State :=
  (InitSync (λ _, Ok Scenario.baseline) otherWorld initState).1.

(** The world of [/w] with a build that is neither Maven nor Gradle. *)
Definition unknownBuilder : Env :=
  {| workspace := "/w";
     getProjectKey := "/w+";
     GetBuildDefinitions := ["/w/pom.xml"];
     IsAbs := String.prefix "/";
     Abs := Scenario.absInW;
     Stat := Scenario.statIn Scenario.fsNew;
     DeterminePluginType := Ok UnknownPlugin;
     getSyncMapCommandMaven := ["mvn"; "jib:_skaffold-sync-map"];
     getSyncMapCommandGradle := ["gradle"; "_jibSkaffoldSyncMap"];
     RunCmdOut := λ _, Ok Scenario.stdout;
     jsonUnmarshal := λ _, Ok Scenario.jsm |}.

(** The world of [Scenario.world] with a decoder that takes anything
    that does not start with a brace for an empty payload. *)
Definition lenientJson : Env :=
  let env := Scenario.world Scenario.fsNew Scenario.absInW (Ok Scenario.stdout) in
  {| workspace := workspace env;
     getProjectKey := getProjectKey env;
     GetBuildDefinitions := GetBuildDefinitions env;
     IsAbs := IsAbs env;
     Abs := Abs env;
     Stat := Stat env;
     DeterminePluginType := DeterminePluginType env;
     getSyncMapCommandMaven := getSyncMapCommandMaven env;
     getSyncMapCommandGradle := getSyncMapCommandGradle env;
     RunCmdOut := RunCmdOut env;
     jsonUnmarshal := λ line,
       match line with
       | x7b :: _ => jsonUnmarshal env line
       | _ => Ok {| Direct := []; Generated := [] |}
       end |}.

(** A payload that lists [A.txt] twice under [direct] and once more
    under [generated]. *)
Definition jsmTwice : JSONSyncMap :=
  {| Direct :=
       [ {| JSONSyncEntry.Src := "/w/A.txt"; JSONSyncEntry.Dest := "/c/old/A.txt" |};
         {| JSONSyncEntry.Src := "/w/C.txt"; JSONSyncEntry.Dest := "/c/C.txt" |};
         {| JSONSyncEntry.Src := "/w/C.txt"; JSONSyncEntry.Dest := "/c/new/C.txt" |} ];
     Generated :=
       [ {| JSONSyncEntry.Src := "/w/A.txt"; JSONSyncEntry.Dest := "/c/A.class" |} ] |}.

Definition twiceWorld : Env :=
  let env := Scenario.world Scenario.fsNew Scenario.absInW (Ok Scenario.stdout) in
  {| workspace := workspace env;
     getProjectKey := getProjectKey env;
     GetBuildDefinitions := GetBuildDefinitions env;
     IsAbs := IsAbs env;
     Abs := Abs env;
     Stat := Stat env;
     DeterminePluginType := DeterminePluginType env;
     getSyncMapCommandMaven := getSyncMapCommandMaven env;
     getSyncMapCommandGradle := getSyncMapCommandGradle env;
     RunCmdOut := RunCmdOut env;
     jsonUnmarshal := λ _, Ok jsmTwice |}.

End Scenario2.

(** * Properties *)

(** ** Maps, references and the trace *)

Lemma isBuildFile_elem f buildFiles :
  isBuildFile f buildFiles = true ↔ f ∈ buildFiles.
Proof.
  induction buildFiles as [|bf rest IH]; simpl.
  - split; [discriminate | intros H; inversion H].
  - case_bool_decide as Hf.
    + subst. split; [intros _; left | done].
    + rewrite IH, elem_of_cons. naive_solver.
Qed.

Lemma isBuildFile_not_elem f buildFiles :
  isBuildFile f buildFiles = false ↔ f ∉ buildFiles.
Proof.
  rewrite <- isBuildFile_elem. destruct (isBuildFile f buildFiles); naive_solver.
Qed.

(** An assignment that follows a successful index of the same map and key
    does write: the nil case of [mapAssign] is not met. *)
Lemma mapAssign_indexed h r k v v' :
  mapIndex h r k = Some v →
  ∃ l m, r = Some l ∧ h !! l = Some m ∧ m !! k = Some v ∧
         mapAssign h r k v' = <[l := <[k := v']> m]> h.
Proof.
  unfold mapIndex, mapAssign. destruct r as [l|]; simpl; [|done].
  destruct (h !! l) as [m|] eqn:Hm; simpl; [|done].
  intros Hk. by exists l, m.
Qed.

Lemma calls_app t1 t2 : calls (t1 ++ t2) = calls t1 + calls t2.
Proof.
  induction t1 as [|[] t1 IH]; simpl; [done| |]; rewrite IH; lia.
Qed.

Lemma setHeap_same s : setHeap (heap s) s = s.
Proof. by destruct s. Qed.

(** ** The diff of two sync maps *)

Lemma syncMapDiff_lookup (N O : SyncMap) k :
  syncMapDiff N O !! k = N !! k ≫= diffEntry O k.
Proof.
  unfold syncMapDiff.
  apply (map_fold_weak_ind
    (λ (r : gmap string (list string)) (m : SyncMap),
       r !! k = m !! k ≫= diffEntry O k)).
  - by rewrite !lookup_empty.
  - intros i x m r Hi IH. unfold diffEntry in *.
    destruct (decide (i = k)) as [->|Hne].
    + rewrite lookup_insert_eq. simpl.
      rewrite Hi in IH. simpl in IH.
      destruct (O !! k) as [c|]; [|by rewrite lookup_insert_eq].
      case_bool_decide; [by rewrite lookup_insert_eq | done].
    + rewrite (lookup_insert_ne m) by done.
      destruct (O !! i) as [c|]; [|by rewrite lookup_insert_ne].
      case_bool_decide; [by rewrite lookup_insert_ne | done].
Qed.

Lemma syncMapDiff_spec (N O : SyncMap) k dst :
  syncMapDiff N O !! k = Some dst ↔
  ∃ v, N !! k = Some v ∧ dst = Dest v ∧
       (O !! k = None ∨ ∃ c, O !! k = Some c ∧ FileTime v ≠ FileTime c).
Proof.
  rewrite syncMapDiff_lookup. unfold diffEntry.
  destruct (N !! k) as [v|]; simpl; [|naive_solver].
  destruct (O !! k) as [c|]; [|naive_solver].
  case_bool_decide; naive_solver.
Qed.

Lemma syncMapDiff_same (N : SyncMap) : syncMapDiff N N = ∅.
Proof.
  apply map_eq. intros k. rewrite syncMapDiff_lookup, lookup_empty.
  unfold diffEntry. destruct (N !! k) as [v|]; simpl; [|done].
  by rewrite bool_decide_eq_false_2 by (intros H; by apply H).
Qed.

(** ** The build-file guard *)

Lemma buildFileGuard_rebuild env buildFiles pre f f' post :
  (∀ g, g ∈ pre → ∃ g', toAbs env g = Ok g') →
  toAbs env f = Ok f' → f' ∈ buildFiles →
  buildFileGuard env buildFiles (pre ++ f :: post) = GuardRebuild.
Proof.
  intros Hpre Hf Hin. induction pre as [|g pre IH]; simpl.
  - rewrite Hf. by rewrite (proj2 (isBuildFile_elem _ _) Hin).
  - destruct (Hpre g) as (g' & ->); [left|].
    destruct (isBuildFile g' buildFiles); [done|].
    apply IH. intros ? ?. apply Hpre. by right.
Qed.

Lemma buildFileGuard_pass env buildFiles modified :
  (∀ g, g ∈ modified → ∃ g', toAbs env g = Ok g' ∧ g' ∉ buildFiles) →
  buildFileGuard env buildFiles modified = GuardPass.
Proof.
  induction modified as [|g rest IH]; simpl; [done|]. intros H.
  destruct (H g) as (g' & -> & Hg'); [left|].
  rewrite (proj2 (isBuildFile_not_elem _ _) Hg').
  apply IH. intros ? ?. apply H. by right.
Qed.

(** The guard stops at the first path that fails to resolve or that is a
    build file, whichever comes first. *)
Lemma buildFileGuard_first_hit env buildFiles modified :
  buildFileGuard env buildFiles modified = GuardRebuild →
  ∃ pre f f' post, modified = pre ++ f :: post ∧
    toAbs env f = Ok f' ∧ f' ∈ buildFiles ∧
    ∀ g, g ∈ pre → ∃ g', toAbs env g = Ok g' ∧ g' ∉ buildFiles.
Proof.
  induction modified as [|g rest IH]; simpl; [done|].
  destruct (toAbs env g) as [g'|] eqn:Hg; [|done].
  destruct (isBuildFile g' buildFiles) eqn:Hb.
  - intros _. exists [], g, g', rest. split_and!; [done..| |].
    + by apply isBuildFile_elem.
    + intros ? H. inversion H.
  - intros (pre & f & f' & post & -> & ? & ? & Hpre)%IH.
    exists (g :: pre), f, f', post. split_and!; [done..|].
    intros x [->|?]%elem_of_cons; [|by apply Hpre].
    exists g'. split; [done|]. by apply isBuildFile_not_elem.
Qed.

(** ** In-place refreshes *)

Lemma sameButTime_refl v : sameButTime v v.
Proof. by split_and!. Qed.

Lemma sameButTime_trans v1 v2 v3 :
  sameButTime v1 v2 → sameButTime v2 v3 → sameButTime v1 v3.
Proof.
  intros (Hd1 & Hi1 & Ht1) (Hd2 & Hi2 & Ht2). split_and!; [congruence..|].
  intros Hne. destruct (decide (FileTime v2 = FileTime v1)) as [Heq|]; [|auto].
  rewrite <- Hi1. apply Ht2. congruence.
Qed.

Lemma mapRefresh_refl m : mapRefresh m m.
Proof.
  intros k. destruct (m !! k); constructor. apply sameButTime_refl.
Qed.

Lemma mapRefresh_trans m1 m2 m3 :
  mapRefresh m1 m2 → mapRefresh m2 m3 → mapRefresh m1 m3.
Proof.
  intros H1 H2 k. specialize (H1 k). specialize (H2 k).
  destruct H1 as [v1 v2 H12|]; inversion H2; subst; constructor.
  by eapply sameButTime_trans.
Qed.

Lemma heapRefresh_refl r h : heapRefresh r h h.
Proof.
  intros l. split; [|done]. destruct (h !! l); constructor.
  apply mapRefresh_refl.
Qed.

#[global] Hint Resolve sameButTime_refl mapRefresh_refl heapRefresh_refl
  : refresh.

Lemma heapRefresh_trans r h1 h2 h3 :
  heapRefresh r h1 h2 → heapRefresh r h2 h3 → heapRefresh r h1 h3.
Proof.
  intros H12 H23 l. destruct (H12 l) as [Ha Hb], (H23 l) as [Hc Hd]. split.
  - destruct Ha as [m1 m2 Hm|]; inversion Hc; subst; constructor.
    by eapply mapRefresh_trans.
  - intros Hr. by rewrite Hd, Hb.
Qed.

Lemma heapRefresh_dom r h h' : heapRefresh r h h' → dom h' = dom h.
Proof.
  intros H. apply set_eq. intros l. rewrite !elem_of_dom.
  destruct (H l) as [Hl _]. destruct Hl; split; intros [? ?]; by eauto.
Qed.

Lemma heapRefresh_mapIndex r h h' k :
  heapRefresh r h h' →
  option_Forall2 sameButTime (mapIndex h r k) (mapIndex h' r k).
Proof.
  intros H. unfold mapIndex. destruct r as [l|]; simpl; [|constructor].
  destruct (H l) as [Hl _]. destruct Hl as [m m' Hm|]; simpl; [|constructor].
  apply Hm.
Qed.

(** The refresh of line 109-110 changes the time of one direct entry. *)
Lemma heapRefresh_assign h r k v modTime :
  mapIndex h r k = Some v → IsDirect v = true →
  heapRefresh r h
    (mapAssign h r k
       {| Dest := Dest v; FileTime := modTime; IsDirect := IsDirect v |}).
Proof.
  intros Hidx Hdir.
  destruct (mapAssign_indexed h r k v
    {| Dest := Dest v; FileTime := modTime; IsDirect := IsDirect v |} Hidx)
    as (l & m & -> & Hl & Hk & ->).
  intros l'. destruct (decide (l = l')) as [<-|Hne].
  - rewrite lookup_insert_eq, Hl. split; [|done]. constructor.
    intros k'. destruct (decide (k = k')) as [<-|Hk'].
    + rewrite lookup_insert_eq, Hk. constructor. by split_and!.
    + rewrite lookup_insert_ne by done.
      destruct (m !! k'); constructor. apply sameButTime_refl.
  - rewrite lookup_insert_ne by done. split; [|done].
    destruct (h !! l'); constructor. apply mapRefresh_refl.
Qed.

(** Whatever way the loop of the fast path ends, all it has done to the
    heap is to refresh times of direct entries of [currSyncMap]. *)
Lemma directLoop_refresh env r modified :
  ∀ h matches,
    heapRefresh r h (loopHeap (directLoop env h r matches modified)).
Proof.
  induction modified as [|f rest IH]; intros h matches; simpl;
    [auto with refresh|].
  destruct (toAbs env f) as [f'|]; simpl; [|auto with refresh].
  destruct (mapIndex h r f') as [v|] eqn:Hidx; simpl; [|auto with refresh].
  destruct (IsDirect v) eqn:Hdir; simpl; [|auto with refresh].
  destruct (Stat env f') as [t|]; simpl; [|auto with refresh].
  eapply heapRefresh_trans; [|apply IH].
  rewrite <- Hdir. apply heapRefresh_assign; [done|]. by rewrite Hdir.
Qed.

(** When every path resolves to a direct entry that can be stat'ed, the
    loop runs to its end and records each of them. *)
Lemma directLoop_all_direct env r h0 modified :
  ∀ h matches,
    heapRefresh r h0 h →
    (∀ f, f ∈ modified → ∃ f' v t,
        toAbs env f = Ok f' ∧ mapIndex h0 r f' = Some v ∧
        IsDirect v = true ∧ Stat env f' = Ok t) →
    ∃ h' matches',
      directLoop env h r matches modified = LoopEnd h' matches' ∧
      dom matches' = dom matches ∪ list_to_set (absPaths env modified) ∧
      (∀ k, k ∈ absPaths env modified →
            matches' !! k = Dest <$> mapIndex h0 r k) ∧
      (∀ k, k ∉ absPaths env modified → matches' !! k = matches !! k).
Proof.
  induction modified as [|f rest IH]; intros h matches Hh Hall; simpl.
  - exists h, matches. split_and!; [done|set_solver| |done].
    intros k Hk. inversion Hk.
  - destruct (Hall f) as (f' & v & t & Hf & Hidx & Hdir & Hstat); [left|].
    unfold absPaths in *. simpl. rewrite Hf. simpl.
    pose proof (heapRefresh_mapIndex r h0 h f' Hh) as Hv.
    rewrite Hidx in Hv. inversion Hv as [? v' (Hd & Hi & _) Heq1 Heq2|].
    symmetry in Heq2. rewrite Hi, Hdir. simpl. rewrite Hstat.
    destruct (IH
      (mapAssign h r f'
         {| Dest := Dest v'; FileTime := t; IsDirect := true |})
      (<[f' := Dest v']> matches))
      as (h' & matches' & -> & Hdom & Hin & Hout).
    { eapply heapRefresh_trans; [exact Hh|].
      replace true with (IsDirect v') at 1 by congruence.
      apply heapRefresh_assign; [done | congruence]. }
    { intros g Hg. apply Hall. by right. }
    exists h', matches'. split_and!; [done| | |].
    + rewrite Hdom, dom_insert_L. set_solver.
    + intros k [->|Hk]%elem_of_cons; [|by apply Hin].
      destruct (decide (f' ∈ rest ≫=
        (λ f0, match toAbs env f0 with Ok f'0 => [f'0] | Err _ => [] end)))
        as [Hk|Hk]; [by apply Hin|].
      rewrite Hout by done. rewrite lookup_insert_eq, Hidx. simpl.
      by rewrite Hd.
    + intros k Hk. rewrite not_elem_of_cons in Hk. destruct Hk as [Hne Hk].
      rewrite Hout by done. by rewrite lookup_insert_ne.
Qed.

(** ** Resolved paths *)

Lemma elem_of_absPaths env l k :
  k ∈ absPaths env l ↔ ∃ f, f ∈ l ∧ toAbs env f = Ok k.
Proof.
  unfold absPaths. rewrite list_elem_of_bind. split.
  - intros (f & Hk & Hf). exists f. split; [done|].
    destruct (toAbs env f) as [f'|]; [|by inversion Hk].
    by apply list_elem_of_singleton in Hk as ->.
  - intros (f & Hf & Hk). exists f. rewrite Hk. split; [left|done].
Qed.

Lemma absPaths_length env l :
  (∀ f, f ∈ l → ∃ f', toAbs env f = Ok f') →
  length (absPaths env l) = length l.
Proof.
  induction l as [|f l IH]; intros Hall; [done|].
  unfold absPaths in *. simpl.
  destruct (Hall f) as [f' ->]; [left|]. simpl. f_equal.
  apply IH. intros g Hg. apply Hall. by right.
Qed.

(** ** What one call of GetSyncDiff does to the store *)

(** Every call ends in one of three ways: without having invoked the
    mapping computation; with the mapping computation having failed; or
    with a new map stored and diffed.  Before that, the fast path may have
    refreshed the map of the project key in place ([h1]). *)
Lemma GetSyncDiff_anatomy gsm env e s s' d :
  GetSyncDiff gsm env e s = (s', d) →
  let key := getProjectKey env in
  let r := syncLists s !! key in
  ∃ h1,
    heapRefresh r (heap s) h1 ∧
    (Added e ≠ [] → h1 = heap s) ∧
    (h1 = heap s ∨
     h1 = loopHeap (directLoop env (heap s) r ∅ (Modified e))) ∧
    ((syncLists s' = syncLists s ∧ heap s' = h1 ∧
      calls (trace s') = calls (trace s) ∧
      toDelete d = None ∧ (err d ≠ None → toCopy d = None))
     ∨
     (syncLists s' = syncLists s ∧ heap s' = h1 ∧
      calls (trace s') = S (calls (trace s)) ∧
      ∃ err, gsm env = Err err ∧ d = failed err)
     ∨
     (∃ N, gsm env = Ok N ∧
        calls (trace s') = S (calls (trace s)) ∧
        syncLists s' = <[key := fresh (dom h1)]> (syncLists s) ∧
        heap s' = <[fresh (dom h1) := N]> h1 ∧
        d = {| toCopy := Some (syncMapDiff N (mapContents (heap s') r));
               toDelete := None; err := None |})).
Proof.
  intros Hrun key r. unfold GetSyncDiff in Hrun.
  destruct (buildFileGuard env _ _).
  { inversion Hrun; subst. exists (heap s'). split; [apply heapRefresh_refl|].
    split; [done|]. split; [by left|]. left. by split_and!. }
  { inversion Hrun; subst. exists (heap s'). split; [apply heapRefresh_refl|].
    split; [done|]. split; [by left|]. left. by split_and!. }
  destruct (negb _).
  { inversion Hrun; subst. exists (heap s). split; [apply heapRefresh_refl|].
    split; [done|]. split; [by left|]. left. simpl. rewrite calls_app. simpl.
    split_and!; [done..|lia|done|done]. }
  fold key in Hrun. fold r in Hrun.
  assert (∃ h1, heapRefresh r (heap s) h1 ∧ (Added e ≠ [] → h1 = heap s) ∧
    (h1 = heap s ∨
     h1 = loopHeap (directLoop env (heap s) r ∅ (Modified e))) ∧
    ((∃ d0, directFastPath env e s r = Return (setHeap h1 s) d0 ∧
        toDelete d0 = None ∧ (err d0 ≠ None → toCopy d0 = None)) ∨
     directFastPath env e s r = FallThrough (setHeap h1 s)))
    as (h1 & Hh1 & Hadd & Hloop & Hfast).
  { unfold directFastPath.
    destruct (length (Deleted e) =? 0)%nat; simpl;
      [|exists (heap s); rewrite setHeap_same;
        split_and!; [apply heapRefresh_refl|done|by left|by right]].
    destruct (length (Added e) =? 0)%nat eqn:Hlen; simpl;
      [|exists (heap s); rewrite setHeap_same;
        split_and!; [apply heapRefresh_refl|done|by left|by right]].
    pose proof (directLoop_refresh env r (Modified e) (heap s) ∅) as Hl.
    destruct (directLoop env (heap s) r ∅ (Modified e)) as [h err|h matches];
      simpl in Hl; exists h; (split; [done|]).
    - split; [|split; [by right|left; by eexists]].
      intros Hne. apply Nat.eqb_eq in Hlen. by destruct (Added e).
    - split.
      { intros Hne. apply Nat.eqb_eq in Hlen. by destruct (Added e). }
      split; [by right|].
      destruct (size matches =? _)%nat; [left|by right].
      eexists. by split_and!. }
  exists h1. split; [done|]. split; [done|]. split; [done|].
  destruct Hfast as [(d0 & Hfast & Hdel & Herr)| Hfast]; rewrite Hfast in Hrun.
  { inversion Hrun; subst. left. by split_and!. }
  unfold fullRecompute in Hrun. destruct (gsm env) as [N|err] eqn:Hgsm.
  - right. right. exists N. inversion Hrun; subst. clear Hrun. simpl.
    rewrite !calls_app. simpl. split_and!; [done|lia|done..].
  - right. left. inversion Hrun; subst. simpl. rewrite calls_app. simpl.
    split_and!; [done|done|lia|by eexists].
Qed.

(** The new map is a new object: the old one is still what it was. *)
Lemma old_map_kept (h : gmap ref SyncMap) (N : SyncMap) (r : option ref) :
  (∀ l, r = Some l → is_Some (h !! l)) →
  mapContents (<[fresh (dom h) := N]> h) r = mapContents h r.
Proof.
  intros Hwf. unfold mapContents. destruct r as [l|]; simpl; [|done].
  destruct (Hwf l eq_refl) as [m Hm].
  rewrite lookup_insert_ne; [done|].
  intros Heq. pose proof (is_fresh (dom h)) as Hfresh.
  rewrite Heq in Hfresh. apply Hfresh. apply elem_of_dom. by eexists.
Qed.

(** ** Well-formed stores *)

Lemma fresh_not_stored (s : State) key :
  wfState s → syncLists s !! key ≠ Some (fresh (dom (heap s))).
Proof.
  intros [Hwf _] Heq. apply Hwf in Heq.
  apply (is_fresh (dom (heap s))). by apply elem_of_dom.
Qed.

Lemma storeNew_wf key N s : wfState s → wfState (storeNew key N s).
Proof.
  intros Hwf. pose proof Hwf as [Hdang Hshare]. split; simpl.
  - intros key' l. destruct (decide (key = key')) as [<-|Hne].
    + rewrite lookup_insert_eq. intros [= <-]. by rewrite lookup_insert_eq.
    + rewrite lookup_insert_ne by done. intros Hl.
      rewrite lookup_insert_ne; [by eapply Hdang|].
      intros <-. by eapply fresh_not_stored.
  - intros key1 key2 l.
    destruct (decide (key = key1)) as [<-|Hne1],
             (decide (key = key2)) as [<-|Hne2]; [done|..].
    + rewrite lookup_insert_eq, lookup_insert_ne by done.
      intros [= <-] Hl. by eapply fresh_not_stored in Hl.
    + rewrite lookup_insert_eq, lookup_insert_ne by done.
      intros Hl [= <-]. by eapply fresh_not_stored in Hl.
    + rewrite !lookup_insert_ne by done. apply Hshare.
Qed.

Lemma emit_wf ef s : wfState s → wfState (emit ef s).
Proof. done. Qed.

Lemma heapRefresh_wf r h s :
  heapRefresh r (heap s) h → wfState s → wfState (setHeap h s).
Proof.
  intros Hh [Hdang Hshare]. split; simpl; [|done].
  intros key l Hl. apply elem_of_dom. rewrite (heapRefresh_dom _ _ _ Hh).
  apply elem_of_dom. by eapply Hdang.
Qed.

Lemma InitSync_wf gsm env s : wfState s → wfState (InitSync gsm env s).1.
Proof.
  intros Hwf. unfold InitSync. destruct (gsm env); simpl; [|done].
  by apply storeNew_wf, emit_wf.
Qed.

Lemma GetSyncDiff_wf gsm env e s :
  wfState s → wfState (GetSyncDiff gsm env e s).1.
Proof.
  intros Hwf. destruct (GetSyncDiff gsm env e s) as [s' d] eqn:Hrun.
  destruct (GetSyncDiff_anatomy _ _ _ _ _ _ Hrun)
    as (h1 & Hh1 & _ & _ & [(Hs & Hh & _)|[(Hs & Hh & _)|(N & _ & _ & Hs & Hh & _)]]);
    simpl.
  - pose proof (heapRefresh_wf _ _ _ Hh1 Hwf) as [H1 H2].
    split; [rewrite Hs, Hh; apply H1 | rewrite Hs; apply H2].
  - pose proof (heapRefresh_wf _ _ _ Hh1 Hwf) as [H1 H2].
    split; [rewrite Hs, Hh; apply H1 | rewrite Hs; apply H2].
  - pose proof (storeNew_wf (getProjectKey env) N _
      (heapRefresh_wf _ _ _ Hh1 Hwf)) as [H1 H2].
    unfold storeNew in H1, H2. simpl in H1, H2.
    split; [rewrite Hs, Hh; apply H1 | rewrite Hs; apply H2].
Qed.

Lemma reachable_wf gsm s : reachable gsm s → wfState s.
Proof.
  induction 1 as [|env s _ IH|env e s _ IH].
  - split; simpl; intros ? ? ?; by rewrite lookup_empty.
  - by apply InitSync_wf.
  - by apply GetSyncDiff_wf.
Qed.

(** ** What the adapter builds *)

Lemma addEntries_invariant env isDirect (P : string → SyncEntry → Prop) :
  (∀ de modTime,
      Stat env (JSONSyncEntry.Src de) = Ok modTime →
      P (JSONSyncEntry.Src de)
        {| Dest := [JSONSyncEntry.Dest de]; FileTime := modTime;
           IsDirect := isDirect |}) →
  ∀ entries sm sm',
    (∀ k v, sm !! k = Some v → P k v) →
    addEntries env isDirect entries sm = Ok sm' →
    ∀ k v, sm' !! k = Some v → P k v.
Proof.
  intros Hnew. induction entries as [|de rest IH]; intros sm sm' Hsm; simpl.
  - by intros [= <-].
  - destruct (Stat env (JSONSyncEntry.Src de)) as [t|] eqn:Hstat; [|done].
    apply IH. intros k v.
    destruct (decide (JSONSyncEntry.Src de = k)) as [<-|Hne].
    + rewrite lookup_insert_eq. intros [= <-]. by apply Hnew.
    + rewrite lookup_insert_ne by done. apply Hsm.
Qed.

Lemma getSyncMapFromSystem_invariant env cmd (P : string → SyncEntry → Prop) :
  (∀ de modTime isDirect,
      Stat env (JSONSyncEntry.Src de) = Ok modTime →
      P (JSONSyncEntry.Src de)
        {| Dest := [JSONSyncEntry.Dest de]; FileTime := modTime;
           IsDirect := isDirect |}) →
  ∀ sm, getSyncMapFromSystem env cmd = Ok sm →
        ∀ k v, sm !! k = Some v → P k v.
Proof.
  intros Hnew sm. unfold getSyncMapFromSystem.
  destruct (RunCmdOut env cmd); [|done].
  destruct (Regexp.FindSubmatch _); [|done].
  destruct (jsonUnmarshal env _) as [jsm|]; [|done].
  destruct (addEntries env true (Direct jsm) ∅) as [sm1|] eqn:H1; [|done].
  apply addEntries_invariant; [by intros; apply Hnew|].
  eapply addEntries_invariant; [|  |exact H1]; [by intros; apply Hnew|].
  intros k v. by rewrite lookup_empty.
Qed.

Lemma getSyncMap_invariant env (P : string → SyncEntry → Prop) :
  (∀ de modTime isDirect,
      Stat env (JSONSyncEntry.Src de) = Ok modTime →
      P (JSONSyncEntry.Src de)
        {| Dest := [JSONSyncEntry.Dest de]; FileTime := modTime;
           IsDirect := isDirect |}) →
  ∀ sm, getSyncMap env = Ok sm → ∀ k v, sm !! k = Some v → P k v.
Proof.
  intros Hnew sm. unfold getSyncMap.
  destruct (getSyncMapCommand env) as [cmd|]; [|done].
  destruct (getSyncMapFromSystem env cmd) as [sm'|] eqn:Hsys; [|done].
  intros [= <-]. by eapply getSyncMapFromSystem_invariant.
Qed.

Lemma getSyncMap_statConsistent env sm :
  getSyncMap env = Ok sm → statConsistent env sm.
Proof.
  intros H k v. revert k v.
  by apply (getSyncMap_invariant env
    (λ k v, Stat env k = Ok (FileTime v))).
Qed.

Lemma getSyncMapFromSystem_oneDest env cmd sm :
  getSyncMapFromSystem env cmd = Ok sm → oneDest sm.
Proof.
  intros H k v. revert k v.
  apply (getSyncMapFromSystem_invariant env cmd
    (λ k v, ∃ dst, Dest v = [dst])); [|done].
  intros. by eexists.
Qed.

Lemma getSyncMap_oneDest env sm : getSyncMap env = Ok sm → oneDest sm.
Proof.
  unfold getSyncMap.
  destruct (getSyncMapCommand env) as [cmd|]; [|done].
  destruct (getSyncMapFromSystem env cmd) as [sm'|] eqn:Hsys; [|done].
  intros [= <-]. by eapply getSyncMapFromSystem_oneDest.
Qed.

(** On a map whose times are those of the files, the refresh of the fast
    path writes back what is there. *)
Lemma directLoop_noop env r modified :
  ∀ h matches,
    (∀ l m, r = Some l → h !! l = Some m → statConsistent env m) →
    loopHeap (directLoop env h r matches modified) = h.
Proof.
  induction modified as [|f rest IH]; intros h matches Hcons; simpl; [done|].
  destruct (toAbs env f) as [f'|]; simpl; [|done].
  destruct (mapIndex h r f') as [v|] eqn:Hidx; simpl; [|done].
  destruct (IsDirect v) eqn:Hdir; simpl; [|done].
  destruct (Stat env f') as [t|] eqn:Hstat; simpl; [|done].
  destruct (mapAssign_indexed h r f' v
    {| Dest := Dest v; FileTime := t; IsDirect := true |} Hidx)
    as (l & m & -> & Hl & Hk & Hassign).
  assert (mapAssign h (Some l) f'
            {| Dest := Dest v; FileTime := t; IsDirect := true |} = h) as ->.
  { rewrite Hassign.
    pose proof (Hcons l m eq_refl Hl f' v Hk) as Ht.
    rewrite Hstat in Ht. injection Ht as ->.
    rewrite <- Hdir. destruct v as [dst ft dir]. simpl.
    by rewrite (insert_id m), insert_id. }
  by apply IH.
Qed.

(** ** The full recomputation *)

(** X18.  When [GetSyncDiff] goes through the full recomputation and the
    mapping computation yields the map [N], the returned [toCopy] holds
    exactly the keys of [N] that the old map object [O] lacks or holds
    with another modification time, each with its destinations from [N].
    [O] is the map object the store held for the project key as it is
    when the diff is computed, that is, after the fast path may have
    refreshed it in place: on a well-formed store it has the keys,
    destinations and flags it had when the call began, only times of
    direct entries can be newer, and it is the very map of the beginning
    of the call when the event adds a file. *)
Theorem fallback_toCopy_exact gsm env e s N :
  let s' := (GetSyncDiff gsm env e s).1 in
  let d := (GetSyncDiff gsm env e s).2 in
  let r := syncLists s !! getProjectKey env in
  let O := mapContents (heap s') r in
  calls (trace s') = S (calls (trace s)) →
  gsm env = Ok N →
  (∃ m, toCopy d = Some m ∧
     ∀ k dst, m !! k = Some dst ↔
       ∃ v, N !! k = Some v ∧ dst = Dest v ∧
         (O !! k = None ∨ ∃ c, O !! k = Some c ∧ FileTime v ≠ FileTime c)) ∧
  (wfState s →
     mapRefresh (mapContents (heap s) r) O ∧
     (Added e ≠ [] → O = mapContents (heap s) r)).
Proof.
  intros s' d r O Hcalls HN. subst s' d O.
  destruct (GetSyncDiff gsm env e s) as [s' d] eqn:Hrun. simpl in *.
  destruct (GetSyncDiff_anatomy _ _ _ _ _ _ Hrun)
    as (h1 & Hh1 & Hadd & _ &
        [(_ & _ & Hc & _)|[(_ & _ & _ & ? & Hg & _)|
                           (N' & Hg & _ & Hs & Hh & ->)]]);
    [lia|congruence|].
  assert (N' = N) as -> by congruence. fold r in Hh1. split.
  - eexists. split; [done|]. intros k dst. apply syncMapDiff_spec.
  - intros [Hdang _]. rewrite Hh.
    rewrite old_map_kept.
    2:{ intros l Hl. apply elem_of_dom.
        rewrite (heapRefresh_dom _ _ _ Hh1). apply elem_of_dom.
        eapply Hdang. subst r. exact Hl. }
    split; [|by intros ->%Hadd].
    unfold mapContents. destruct r as [l|]; simpl; [|apply mapRefresh_refl].
    destruct (Hh1 l) as [Hl _].
    destruct Hl; simpl; [done|apply mapRefresh_refl].
Qed.

Lemma fallback_toCopy_exact_witness :
  let gsm := getSyncMap in
  let env := Scenario.world Scenario.fsNew Scenario.absInW (Ok Scenario.stdout) in
  let e := Scenario.modified ["/w/B.java"] in
  let s := Scenario.s0 in
  let N := Scenario.snapshotNew in
  let s' := (GetSyncDiff gsm env e s).1 in
  let d := (GetSyncDiff gsm env e s).2 in
  let r := syncLists s !! getProjectKey env in
  let O := mapContents (heap s') r in
  calls (trace s') = S (calls (trace s)) ∧
  gsm env = Ok N ∧
  (∃ m, toCopy d = Some m ∧
     ∀ k dst, m !! k = Some dst ↔
       ∃ v, N !! k = Some v ∧ dst = Dest v ∧
         (O !! k = None ∨ ∃ c, O !! k = Some c ∧ FileTime v ≠ FileTime c)) ∧
  (wfState s →
     mapRefresh (mapContents (heap s) r) O ∧
     (Added e ≠ [] → O = mapContents (heap s) r)).
Proof.
  intros gsm env e s N s' d r O.
  assert (Ha : calls (trace s') = S (calls (trace s)))
    by (vm_compute; reflexivity).
  assert (Hb : gsm env = Ok N) by (vm_compute; reflexivity).
  exact (conj Ha (conj Hb (fallback_toCopy_exact gsm env e s N Ha Hb))).
Defined.

(** C1.  The code at the input where it departs from the claim: the
    cached map [O] holds the direct file [A.txt] with time 5 and the
    generated file [B.java]; both are modified and listed in that order;
    the recomputation yields [N] with [A.txt] at time 7.  [A.txt] is a
    key of [N] whose time differs from its time in [O], and the returned
    [toCopy] holds [B.java] and [C.txt] only: the fast path had written
    the new time of [A.txt] into [O] before it gave up (lines 109-110),
    and the diff of lines 130-142 reads [O] after that. *)
Lemma fallback_drops_refreshed_file :
  let env := Scenario.world Scenario.fsNew Scenario.absInW (Ok Scenario.stdout) in
  let e := Scenario.modified ["/w/A.txt"; "/w/B.java"] in
  let s := Scenario.s0 in
  let run := GetSyncDiff getSyncMap env e s in
  let O := Scenario.baseline in
  let N := Scenario.snapshotNew in
  cached s (getProjectKey env) = Some O ∧
  getSyncMap env = Ok N ∧
  calls (trace run.1) = S (calls (trace s)) ∧
  O !! "/w/A.txt" =
    Some {| Dest := ["/c/A.txt"]; FileTime := 5%Z; IsDirect := true |} ∧
  N !! "/w/A.txt" =
    Some {| Dest := ["/c/A.txt"]; FileTime := 7%Z; IsDirect := true |} ∧
  run.2 = {| toCopy := Some (<["/w/B.java" := ["/c/B.class"]]>
                             (<["/w/C.txt" := ["/c/C.txt"]]> ∅));
             toDelete := None; err := None |} ∧
  (toCopy run.2 ≫= (.!! "/w/A.txt")) = None.
Proof. split_and!; vm_compute; reflexivity. Qed.

(** ** Deletions *)

(** C7.  [GetSyncDiff] never reports a deletion: [toDelete] is nil on
    every return, and after a full recomputation a path that the old
    cached map held and the new map [N] lacks is not in [toCopy]
    either. *)
Theorem never_reports_deletions gsm env e s :
  let s' := (GetSyncDiff gsm env e s).1 in
  let d := (GetSyncDiff gsm env e s).2 in
  let O := mapContents (heap s) (syncLists s !! getProjectKey env) in
  toDelete d = None ∧
  ∀ N m k,
    calls (trace s') = S (calls (trace s)) → gsm env = Ok N →
    toCopy d = Some m →
    is_Some (O !! k) → N !! k = None →
    m !! k = None.
Proof.
  intros s' d O. subst s' d O.
  destruct (GetSyncDiff gsm env e s) as [s' d] eqn:Hrun. simpl.
  destruct (GetSyncDiff_anatomy _ _ _ _ _ _ Hrun)
    as (h1 & Hh1 & Hadd & _ &
        [(_ & _ & Hc & Hdel & _)|[(_ & _ & _ & ? & Hg & ->)|
                                  (N' & Hg & _ & Hs & Hh & ->)]]).
  - split; [done|]. intros. lia.
  - split; [done|]. intros. congruence.
  - split; [done|]. simpl. intros N m k _ HN [= <-] _ Hk.
    assert (N' = N) as -> by congruence.
    by rewrite syncMapDiff_lookup, Hk.
Qed.

Lemma never_reports_deletions_witness :
  let gsm := λ _ : Env,
    Ok (<["/w/A.txt" := {| Dest := ["/c/A.txt"]; FileTime := 7%Z;
                            IsDirect := true |}]> (∅ : SyncMap)) in
  let env := Scenario.world Scenario.fsNew Scenario.absInW (Ok Scenario.stdout) in
  let e := Scenario.modified ["/w/B.java"] in
  let d := (GetSyncDiff gsm env e Scenario.s0).2 in
  toDelete d = None ∧
  ∃ m, toCopy d = Some m ∧ m !! "/w/B.java" = None.
Proof.
  intros gsm env e d.
  destruct (never_reports_deletions gsm env e Scenario.s0) as [Hdel Hcopy].
  split; [exact Hdel|].
  exists (<["/w/A.txt" := ["/c/A.txt"]]> ∅).
  assert (Hm : toCopy d = Some (<["/w/A.txt" := ["/c/A.txt"]]> ∅))
    by (vm_compute; reflexivity).
  split; [exact Hm|].
  apply (Hcopy _ _ "/w/B.java" ltac:(vm_compute; reflexivity) eq_refl Hm);
    [vm_compute; by eexists | vm_compute; reflexivity].
Defined.

(** C8.  A change event with deletions, none of whose modified paths is
    a build file or fails to resolve, yields the no-sync result: nothing
    is copied, there is no error, the mapping computation is not invoked
    and all that happens to the state is the message on the output. *)
Theorem deletion_blocks_sync gsm env e s :
  Deleted e ≠ [] →
  (∀ f, f ∈ Modified e →
        ∃ f', toAbs env f = Ok f' ∧ f' ∉ GetBuildDefinitions env) →
  GetSyncDiff gsm env e s =
    (emit (Println
             "Deletions are not supported by jib auto sync at the moment"
             None) s,
     noSync).
Proof.
  intros Hdel Hmod. unfold GetSyncDiff.
  rewrite (buildFileGuard_pass _ _ _ Hmod).
  by destruct (Deleted e).
Qed.

Lemma deletion_blocks_sync_witness :
  let env := Scenario.world Scenario.fsNew Scenario.absInW (Ok Scenario.stdout) in
  let e := {| Added := []; Modified := ["A.txt"]; Deleted := ["/w/B.java"] |} in
  GetSyncDiff getSyncMap env e Scenario.s0 =
    (emit (Println
             "Deletions are not supported by jib auto sync at the moment"
             None) Scenario.s0,
     noSync).
Proof.
  intros env e. apply (deletion_blocks_sync getSyncMap env e Scenario.s0).
  - discriminate.
  - intros f ->%list_elem_of_singleton. exists "/w/A.txt".
    split; [reflexivity|]. intros ?%list_elem_of_singleton. discriminate.
Defined.

(** ** The build-file guard comes first *)

(** C3, as the code has it.  When a modified path resolves to a build
    file and every modified path listed before it resolves, the result is
    the no-sync result whatever else the event holds, and the state is
    left as it was: no message, no refresh, no mapping computation. *)
Theorem build_file_guard_precedence gsm env e s pre f f' post :
  Modified e = pre ++ f :: post →
  (∀ g, g ∈ pre → ∃ g', toAbs env g = Ok g') →
  toAbs env f = Ok f' →
  f' ∈ GetBuildDefinitions env →
  GetSyncDiff gsm env e s = (s, noSync).
Proof.
  intros Hsplit Hpre Hf Hbf. unfold GetSyncDiff. rewrite Hsplit.
  by rewrite (buildFileGuard_rebuild _ _ _ _ _ _ Hpre Hf Hbf).
Qed.

Lemma build_file_guard_precedence_witness :
  let env := Scenario.world Scenario.fsNew Scenario.absInW (Ok Scenario.stdout) in
  let e := {| Added := ["/w/D.txt"];
              Modified := ["/w/A.txt"; "pom.xml"; "/w/B.java"];
              Deleted := ["/w/E.txt"] |} in
  GetSyncDiff getSyncMap env e Scenario.s0 = (Scenario.s0, noSync).
Proof.
  intros env e.
  apply (build_file_guard_precedence getSyncMap env e Scenario.s0
           ["/w/A.txt"] "pom.xml" "/w/pom.xml" ["/w/B.java"]).
  - reflexivity.
  - intros g ->%list_elem_of_singleton. by exists "/w/A.txt".
  - reflexivity.
  - simpl. left.
Defined.

(** C3 as stated fails: a path that does not resolve, listed before the
    build file, turns the call into a hard error. *)
Lemma build_file_guard_unresolved_counterexample :
  let env := Scenario.world Scenario.fsNew Scenario.absNoWd (Ok Scenario.stdout) in
  let e := Scenario.modified ["rel.txt"; "/w/pom.xml"] in
  "/w/pom.xml" ∈ Modified e ∧
  toAbs env "/w/pom.xml" = Ok "/w/pom.xml" ∧
  "/w/pom.xml" ∈ GetBuildDefinitions env ∧
  (GetSyncDiff getSyncMap env e Scenario.s0).2 =
    failed (WithStack (WithStack
      (External "getwd: no such file or directory"))) ∧
  (GetSyncDiff getSyncMap env e Scenario.s0).2 ≠ noSync.
Proof.
  split_and!; [set_solver|reflexivity|set_solver|reflexivity|discriminate].
Qed.

(** ** The direct fast path *)

(** C2, as the code has it.  For an event without added or deleted paths
    whose modified paths all resolve, to pairwise distinct absolute paths
    that are not build files, that the cached map holds as direct entries
    and that can be stat'ed, [GetSyncDiff] returns in [toCopy] exactly
    these paths with their cached destinations, a nil [toDelete] and no
    error, and does not invoke the mapping computation. *)
Theorem direct_fast_path gsm env e s :
  let s' := (GetSyncDiff gsm env e s).1 in
  let d := (GetSyncDiff gsm env e s).2 in
  let r := syncLists s !! getProjectKey env in
  Added e = [] → Deleted e = [] →
  (∀ f, f ∈ Modified e → ∃ f' v,
      toAbs env f = Ok f' ∧ mapIndex (heap s) r f' = Some v ∧
      IsDirect v = true) →
  (∀ f f', f ∈ Modified e → toAbs env f = Ok f' →
      (f' ∉ GetBuildDefinitions env) ∧ ∃ t, Stat env f' = Ok t) →
  NoDup (absPaths env (Modified e)) →
  (∃ m, toCopy d = Some m ∧
     ∀ k dst, m !! k = Some dst ↔
       ∃ f v, f ∈ Modified e ∧ toAbs env f = Ok k ∧
              mapIndex (heap s) r k = Some v ∧ dst = Dest v) ∧
  toDelete d = None ∧ err d = None ∧ trace s' = trace s.
Proof.
  intros s' d r Hadd Hdel Hdirect Hfs Hnodup. subst s' d.
  unfold GetSyncDiff. rewrite buildFileGuard_pass.
  2:{ intros f Hf. destruct (Hdirect f Hf) as (f' & v & Hf' & _).
      exists f'. split; [done|]. by apply (Hfs f f'). }
  rewrite Hdel. simpl. unfold directFastPath. rewrite Hadd, Hdel. simpl.
  fold r.
  destruct (directLoop_all_direct env r (heap s) (Modified e) (heap s) ∅)
    as (h' & m & -> & Hdom & Hin & Hout).
  { apply heapRefresh_refl. }
  { intros f Hf. destruct (Hdirect f Hf) as (f' & v & Hf' & Hv & Hd).
    destruct (Hfs f f' Hf Hf') as [_ [t Ht]]. by exists f', v, t. }
  assert (size m = length (Modified e)) as ->.
  { rewrite <- size_dom, Hdom, dom_empty_L, (left_id_L ∅ (∪)).
    rewrite size_list_to_set by done.
    apply absPaths_length. intros f Hf.
    destruct (Hdirect f Hf) as (f' & ? & ? & _). by exists f'. }
  rewrite Nat.eqb_refl. simpl. split_and!; [|done..].
  exists m. split; [done|]. intros k dst.
  destruct (decide (k ∈ absPaths env (Modified e))) as [Hk|Hk].
  - rewrite (Hin k Hk). apply elem_of_absPaths in Hk as (f & Hf & Hfk).
    destruct (mapIndex (heap s) r k) as [v|]; simpl; [|naive_solver].
    split; [intros [= <-]; by exists f, v | by intros (_ & _ & _ & _ & [= <-] & ->)].
  - rewrite (Hout k Hk), lookup_empty. split; [done|].
    intros (f & v & Hf & Hfk & _). destruct Hk. apply elem_of_absPaths.
    by exists f.
Qed.

Lemma direct_fast_path_witness :
  let gsm := getSyncMap in
  let env := Scenario.world Scenario.fsNew Scenario.absInW (Ok Scenario.stdout) in
  let e := Scenario.modified ["A.txt"] in
  let s := Scenario.s0 in
  let s' := (GetSyncDiff gsm env e s).1 in
  let d := (GetSyncDiff gsm env e s).2 in
  let r := syncLists s !! getProjectKey env in
  (∃ m, toCopy d = Some m ∧
     ∀ k dst, m !! k = Some dst ↔
       ∃ f v, f ∈ Modified e ∧ toAbs env f = Ok k ∧
              mapIndex (heap s) r k = Some v ∧ dst = Dest v) ∧
  toDelete d = None ∧ err d = None ∧ trace s' = trace s.
Proof.
  intros gsm env e s s' d r.
  apply (direct_fast_path gsm env e s).
  - reflexivity.
  - reflexivity.
  - intros f ->%list_elem_of_singleton.
    exists "/w/A.txt",
      ({| Dest := ["/c/A.txt"]; FileTime := 5%Z; IsDirect := true |}).
    split_and!; vm_compute; reflexivity.
  - intros f f' ->%list_elem_of_singleton [= <-]. split.
    + intros ?%list_elem_of_singleton. discriminate.
    + exists 7%Z. reflexivity.
  - apply NoDup_singleton.
Defined.

(** C2 as stated fails: the cached direct file cannot be stat'ed, and the
    call is a hard error with a nil [toCopy]. *)
Lemma direct_fast_path_stat_counterexample :
  let env := Scenario.world [] Scenario.absInW (Ok Scenario.stdout) in
  let e := Scenario.modified ["/w/A.txt"] in
  let s := Scenario.s0 in
  let d := (GetSyncDiff getSyncMap env e s).2 in
  let r := syncLists s !! getProjectKey env in
  Added e = [] ∧ Deleted e = [] ∧
  (∀ f, f ∈ Modified e → ∃ f' v,
      toAbs env f = Ok f' ∧ mapIndex (heap s) r f' = Some v ∧
      IsDirect v = true) ∧
  toCopy d = None ∧
  err d = Some (Wrap (External "no such file or directory")
                  "could not obtain file mod time").
Proof.
  split_and!; [reflexivity|reflexivity| |reflexivity|reflexivity].
  intros f ->%list_elem_of_singleton.
  exists "/w/A.txt",
    ({| Dest := ["/c/A.txt"]; FileTime := 5%Z; IsDirect := true |}).
  split_and!; vm_compute; reflexivity.
Qed.

(** ** What a call may change in the store *)

Lemma cached_refresh s s' key :
  syncLists s' = syncLists s →
  heapRefresh (syncLists s !! key) (heap s) (heap s') →
  option_Forall2 mapRefresh (cached s key) (cached s' key).
Proof.
  intros Hs Hh. unfold cached. rewrite Hs.
  destruct (syncLists s !! key) as [l|]; simpl; [|constructor].
  by destruct (Hh l).
Qed.

Lemma cached_other s s' key key' :
  wfState s → key' ≠ key →
  syncLists s' = syncLists s →
  heapRefresh (syncLists s !! key) (heap s) (heap s') →
  cached s' key' = cached s key'.
Proof.
  intros [_ Hshare] Hne Hs Hh. unfold cached. rewrite Hs.
  destruct (syncLists s !! key') as [l|] eqn:Hl; simpl; [|done].
  destruct (Hh l) as [_ Hsame]. apply Hsame.
  intros Hkey. apply Hne. by eapply Hshare.
Qed.

(** C4.  The code at the input where it departs from the claim: the
    direct file [A.txt] and the generated file [B.java] are modified and
    the subprocess of the mapping computation fails.  The call returns
    the error with nil [toCopy] and [toDelete], and the map cached for
    the project key is not what it was when the call began: the fast path
    had written the new time of [A.txt] into it (lines 109-110) before
    the mapping computation was invoked. *)
Lemma hard_error_refreshes_cached_time :
  let env := Scenario.world Scenario.fsNew Scenario.absInW
               (Err (External "exit status 1")) in
  let e := Scenario.modified ["/w/A.txt"; "/w/B.java"] in
  let s := Scenario.s0 in
  let s' := (GetSyncDiff getSyncMap env e s).1 in
  let d := (GetSyncDiff getSyncMap env e s).2 in
  let key := getProjectKey env in
  d = failed (WithStack
        (Wrap (External "exit status 1") "failed to get Jib sync map")) ∧
  cached s key ≫= (.!! "/w/A.txt") =
    Some {| Dest := ["/c/A.txt"]; FileTime := 5%Z; IsDirect := true |} ∧
  cached s' key ≫= (.!! "/w/A.txt") =
    Some {| Dest := ["/c/A.txt"]; FileTime := 7%Z; IsDirect := true |} ∧
  cached s' key ≠ cached s key.
Proof.
  split_and!; [reflexivity..|].
  intros H. apply (f_equal (λ m, m ≫= (.!! "/w/A.txt"))) in H.
  vm_compute in H. discriminate.
Qed.

(** C5, as the code has it.  A call of [GetSyncDiff] changes the store in
    two ways only: the fast path refreshes in place the time of direct
    entries of the map of the project key ([h1], the same objects with
    the same keys, destinations and flags), and a successful
    recomputation binds the project key to the new map, a new object.
    On a well-formed store the maps of the other project keys are what
    they were.  [InitSync] either fails and leaves the store alone, or
    binds the project key to the new map. *)
Theorem store_mutations gsm env e s :
  let s' := (GetSyncDiff gsm env e s).1 in
  let d := (GetSyncDiff gsm env e s).2 in
  let key := getProjectKey env in
  (∃ h1,
     heapRefresh (syncLists s !! key) (heap s) h1 ∧
     ((syncLists s' = syncLists s ∧ heap s' = h1) ∨
      (∃ N, gsm env = Ok N ∧ err d = None ∧
            calls (trace s') = S (calls (trace s)) ∧
            syncLists s' = <[key := fresh (dom h1)]> (syncLists s) ∧
            heap s' = <[fresh (dom h1) := N]> h1))) ∧
  (wfState s → ∀ key', key' ≠ key → cached s' key' = cached s key') ∧
  (let i := InitSync gsm env s in
   match gsm env with
   | Err err =>
       i.2 = Some err ∧ heap i.1 = heap s ∧ syncLists i.1 = syncLists s
   | Ok N =>
       i.2 = None ∧ syncLists i.1 = <[key := fresh (dom (heap s))]> (syncLists s) ∧
       heap i.1 = <[fresh (dom (heap s)) := N]> (heap s)
   end).
Proof.
  intros s' d key. subst s' d.
  destruct (GetSyncDiff gsm env e s) as [s' d] eqn:Hrun. simpl.
  destruct (GetSyncDiff_anatomy _ _ _ _ _ _ Hrun)
    as (h1 & Hh1 & Hadd & _ & Hcases). fold key in Hh1.
  split_and!.
  - exists h1. split; [done|].
    destruct Hcases as [(Hs & Hh & _)|[(Hs & Hh & _)|
                        (N & HN & Hc & Hs & Hh & ->)]];
      [by left|by left|right].
    exists N. by split_and!.
  - intros Hwf key' Hne.
    destruct Hcases as [(Hs & Hh & _)|[(Hs & Hh & _)|
                        (N & HN & Hc & Hs & Hh & ->)]].
    + subst h1. by eapply cached_other.
    + subst h1. by eapply cached_other.
    + unfold cached. rewrite Hs, Hh. fold key.
      rewrite lookup_insert_ne by done.
      destruct (syncLists s !! key') as [l|] eqn:Hl; simpl; [|done].
      pose proof Hwf as [Hdang Hshare].
      rewrite lookup_insert_ne.
      * destruct (Hh1 l) as [_ Hsame]. apply Hsame.
        intros Hkey. apply Hne. by eapply Hshare.
      * intros Heq. apply (is_fresh (dom h1)). rewrite Heq.
        rewrite (heapRefresh_dom _ _ _ Hh1). apply elem_of_dom.
        by eapply Hdang.
  - unfold InitSync. by destruct (gsm env).
Qed.

(** C5 as stated fails: the fast path returns without invoking the
    mapping computation, hence without a store-write, and the map held
    for the project key has changed all the same. *)
Lemma store_mutations_refresh_counterexample :
  let env := Scenario.world Scenario.fsNew Scenario.absInW (Ok Scenario.stdout) in
  let e := Scenario.modified ["A.txt"] in
  let s := Scenario.s0 in
  let s' := (GetSyncDiff getSyncMap env e s).1 in
  let key := getProjectKey env in
  trace s' = trace s ∧
  syncLists s' = syncLists s ∧
  cached s key ≫= (.!! "/w/A.txt") =
    Some {| Dest := ["/c/A.txt"]; FileTime := 5%Z; IsDirect := true |} ∧
  cached s' key ≫= (.!! "/w/A.txt") =
    Some {| Dest := ["/c/A.txt"]; FileTime := 7%Z; IsDirect := true |} ∧
  cached s' key ≠ cached s key.
Proof.
  split_and!; [reflexivity..|].
  intros H. apply (f_equal (λ m, m ≫= (.!! "/w/A.txt"))) in H.
  vm_compute in H. discriminate.
Qed.

(** ** Running the diff twice *)

(** C6, as the code has it.  With the mapping computation of this file
    and the same world for both runs: when the first run has gone through
    a successful recomputation, so that its snapshot is the baseline of
    the second, and the second run goes through the recomputation too,
    the second [toCopy] is empty. *)
Theorem second_recomputation_empty env e s :
  let run1 := GetSyncDiff getSyncMap env e s in
  let run2 := GetSyncDiff getSyncMap env e run1.1 in
  calls (trace run1.1) = S (calls (trace s)) →
  err run1.2 = None →
  calls (trace run2.1) = S (calls (trace run1.1)) →
  toCopy run2.2 = Some ∅ ∧ toDelete run2.2 = None ∧ err run2.2 = None.
Proof.
  intros run1 run2 Hc1 Herr1 Hc2. subst run1 run2.
  destruct (GetSyncDiff getSyncMap env e s) as [s1 d1] eqn:Hrun1.
  simpl in *.
  destruct (GetSyncDiff getSyncMap env e s1) as [s2 d2] eqn:Hrun2.
  simpl in *.
  destruct (GetSyncDiff_anatomy _ _ _ _ _ _ Hrun1)
    as (h1 & _ & _ & _ &
        [(_ & _ & ? & _)|[(_ & _ & _ & ? & _ & ->)|
                          (N & HN & _ & Hs1 & Hh1 & _)]]);
    [lia|done|].
  destruct (GetSyncDiff_anatomy _ _ _ _ _ _ Hrun2)
    as (h2 & _ & _ & Hloop &
        [(_ & _ & ? & _)|[(_ & _ & _ & ? & ? & _)|
                          (N' & HN' & _ & _ & Hh2 & ->)]]);
    [lia|congruence|].
  assert (N' = N) as -> by congruence. simpl. split_and!; [|done..].
  set (l1 := fresh (dom h1)) in *.
  assert (syncLists s1 !! getProjectKey env = Some l1) as Hr
    by (by rewrite Hs1, lookup_insert_eq).
  rewrite Hr in *.
  assert (h2 = heap s1) as ->.
  { destruct Hloop as [->| ->]; [done|]. apply directLoop_noop.
    intros l m [= <-]. rewrite Hh1, lookup_insert_eq. intros [= <-].
    by apply getSyncMap_statConsistent. }
  rewrite Hh2. unfold mapContents. simpl.
  rewrite lookup_insert_ne.
  - rewrite Hh1, lookup_insert_eq. simpl. by rewrite syncMapDiff_same.
  - intros Heq. apply (is_fresh (dom (heap s1))). rewrite Heq.
    apply elem_of_dom. rewrite Hh1, lookup_insert_eq. by eexists.
Qed.

Lemma second_recomputation_empty_witness :
  let env := Scenario.world Scenario.fsNew Scenario.absInW (Ok Scenario.stdout) in
  let e := Scenario.modified ["/w/B.java"] in
  let s := Scenario.s0 in
  let run1 := GetSyncDiff getSyncMap env e s in
  let run2 := GetSyncDiff getSyncMap env e run1.1 in
  calls (trace run1.1) = S (calls (trace s)) ∧
  err run1.2 = None ∧
  calls (trace run2.1) = S (calls (trace run1.1)) ∧
  toCopy run2.2 = Some ∅ ∧ toDelete run2.2 = None ∧ err run2.2 = None.
Proof.
  intros env e s run1 run2.
  assert (Ha : calls (trace run1.1) = S (calls (trace s)))
    by (vm_compute; reflexivity).
  assert (Hb : err run1.2 = None) by (vm_compute; reflexivity).
  assert (Hc : calls (trace run2.1) = S (calls (trace run1.1)))
    by (vm_compute; reflexivity).
  exact (conj Ha (conj Hb (conj Hc
    (second_recomputation_empty env e s Ha Hb Hc)))).
Defined.

(** C6 as stated fails: the first run recomputes and learns [C.txt] as a
    direct file; the second run, in the same world, takes the fast path
    and returns [C.txt] again. *)
Lemma second_run_fast_path_counterexample :
  let env := Scenario.world Scenario.fsOld Scenario.absInW (Ok Scenario.stdout) in
  let e := Scenario.modified ["/w/C.txt"] in
  let s := Scenario.s0 in
  let run1 := GetSyncDiff getSyncMap env e s in
  let run2 := GetSyncDiff getSyncMap env e run1.1 in
  calls (trace run1.1) = S (calls (trace s)) ∧
  err run1.2 = None ∧
  Ok <$> cached run1.1 (getProjectKey env) = Some (getSyncMap env) ∧
  toCopy run2.2 = Some {["/w/C.txt" := ["/c/C.txt"]]} ∧
  toCopy run2.2 ≠ Some ∅.
Proof.
  split_and!; [vm_compute; reflexivity..|].
  intros H. apply (f_equal (λ m, m ≫= (.!! "/w/C.txt"))) in H.
  vm_compute in H. discriminate.
Qed.

(** ** Destinations *)

Lemma mapRefresh_oneDest m m' : mapRefresh m m' → oneDest m → oneDest m'.
Proof.
  intros Hm Hone k v' Hk. specialize (Hm k). rewrite Hk in Hm.
  inversion Hm as [v ? (Hd & _) Hv|]; subst. symmetry in Hv.
  rewrite Hd. by eapply Hone.
Qed.

Lemma heapRefresh_oneDest r (h h' : gmap ref SyncMap) :
  heapRefresh r h h' →
  (∀ l m, h !! l = Some m → oneDest m) →
  ∀ l m, h' !! l = Some m → oneDest m.
Proof.
  intros Hh Hone l m' Hl. destruct (Hh l) as [Hm _]. rewrite Hl in Hm.
  inversion Hm as [m ? Hmm Hm0|]; subst. symmetry in Hm0.
  eapply mapRefresh_oneDest; [done|]. by eapply Hone.
Qed.

Lemma reachable_oneDest s :
  reachable getSyncMap s → ∀ l m, heap s !! l = Some m → oneDest m.
Proof.
  induction 1 as [|env s _ IH|env e s _ IH].
  - intros l m. simpl. by rewrite lookup_empty.
  - unfold InitSync. destruct (getSyncMap env) as [N|] eqn:HN; simpl; [|done].
    intros l m. destruct (decide (fresh (dom (heap s)) = l)) as [<-|Hne].
    + rewrite lookup_insert_eq. intros [= <-]. by eapply getSyncMap_oneDest.
    + rewrite lookup_insert_ne by done. apply IH.
  - destruct (GetSyncDiff getSyncMap env e s) as [s' d] eqn:Hrun. simpl.
    destruct (GetSyncDiff_anatomy _ _ _ _ _ _ Hrun)
      as (h1 & Hh1 & _ & _ &
          [(_ & -> & _)|[(_ & -> & _)|(N & HN & _ & _ & -> & _)]]).
    + by eapply heapRefresh_oneDest.
    + by eapply heapRefresh_oneDest.
    + intros l m. destruct (decide (fresh (dom h1) = l)) as [<-|Hne].
      * rewrite lookup_insert_eq. intros [= <-]. by eapply getSyncMap_oneDest.
      * rewrite lookup_insert_ne by done. by eapply heapRefresh_oneDest.
Qed.

(** C9.  Every entry that [getSyncMapFromSystem] builds from the
    interpreter's output has exactly one destination, and in every state
    the program reaches from the empty store through [InitSync] and
    [GetSyncDiff], with the mapping computation of this file, no entry of
    any map ever stored has an empty [Dest]. *)
Theorem destinations_never_empty :
  (∀ env cmd sm, getSyncMapFromSystem env cmd = Ok sm →
     ∀ k v, sm !! k = Some v → ∃ dst, Dest v = [dst]) ∧
  (∀ s, reachable getSyncMap s →
     ∀ l m k v, heap s !! l = Some m → m !! k = Some v → Dest v ≠ []).
Proof.
  split.
  - intros env cmd sm H k v. by apply (getSyncMapFromSystem_oneDest env cmd).
  - intros s Hs l m k v Hl Hk.
    destruct (reachable_oneDest s Hs l m Hl k v Hk) as [dst ->]. done.
Qed.

Lemma destinations_never_empty_witness :
  let env0 := Scenario.world Scenario.fsOld Scenario.absInW (Ok Scenario.stdout) in
  let env := Scenario.world Scenario.fsNew Scenario.absInW (Ok Scenario.stdout) in
  let s := (GetSyncDiff getSyncMap env (Scenario.modified ["A.txt"])
              (InitSync getSyncMap env0 initState).1).1 in
  (∃ dst, Dest {| Dest := ["/c/C.txt"]; FileTime := 3%Z; IsDirect := true |}
          = [dst]) ∧
  Dest {| Dest := ["/c/A.txt"]; FileTime := 7%Z; IsDirect := true |} ≠ [].
Proof.
  intros env0 env s.
  destruct destinations_never_empty as [Hone Hreach]. split.
  - apply (Hone env ["mvn"; "jib:_skaffold-sync-map"] Scenario.snapshotNew
             ltac:(vm_compute; reflexivity) "/w/C.txt").
    vm_compute; reflexivity.
  - apply (Hreach s ltac:(apply reach_GetSyncDiff, reach_InitSync, reach_init)
             1%positive
             (<["/w/A.txt" := {| Dest := ["/c/A.txt"]; FileTime := 7%Z;
                                 IsDirect := true |}]>
              (<["/w/C.txt" := {| Dest := ["/c/C.txt"]; FileTime := 3%Z;
                                  IsDirect := true |}]>
              (<["/w/B.java" := {| Dest := ["/c/B.class"]; FileTime := 5%Z;
                                   IsDirect := false |}]> ∅)))
             "/w/A.txt");
      vm_compute; reflexivity.
Defined.

(** ** The marker search *)

Lemma byte_eqb_eq a b : Byte.eqb a b = true ↔ a = b.
Proof. split; [apply Byte.byte_dec_bl | apply Byte.byte_dec_lb]. Qed.

Lemma byte_eqb_refl a : Byte.eqb a a = true.
Proof. by apply byte_eqb_eq. Qed.

Lemma byte_eqb_neq a b : Byte.eqb a b = false ↔ a ≠ b.
Proof.
  rewrite <- byte_eqb_eq. destruct (Byte.eqb a b); naive_solver.
Qed.

Lemma literal_Some p s s' : Regexp.literal p s = Some s' ↔ s = p ++ s'.
Proof.
  revert s. induction p as [|a p IH]; intros s; simpl.
  - naive_solver.
  - destruct s as [|b s]; [naive_solver|].
    destruct (Byte.eqb a b) eqn:Hab.
    + apply byte_eqb_eq in Hab as ->. rewrite IH. naive_solver.
    + apply byte_eqb_neq in Hab. naive_solver.
Qed.

Lemma literal_app p s : Regexp.literal p (p ++ s) = Some s.
Proof. by apply literal_Some. Qed.

Lemma literal_byte a s : Regexp.literal [a] (a :: s) = Some s.
Proof. apply (literal_app [a]). Qed.

(** [.*}] matches when a closing brace comes before the end of the
    line. *)
Lemma dotStarBrace_is_Some s :
  is_Some (Regexp.dotStarBrace s) ↔
  ∃ body post, s = body ++ x7d :: post ∧ LF ∉ body.
Proof.
  induction s as [|b rest IH]; simpl.
  - split; [by intros [? ?]|]. intros ([|? ?] & ? & ? & _); done.
  - destruct (Byte.eqb b LF) eqn:HLF.
    { apply byte_eqb_eq in HLF as ->. split; [by intros [? ?]|].
      intros ([|c body] & post & Heq & Hbody); [done|].
      injection Heq as <- _. destruct Hbody. left. }
    apply byte_eqb_neq in HLF.
    destruct (Regexp.dotStarBrace rest) as [g|] eqn:Hrest.
    + split; [intros _|by eexists].
      destruct (proj1 IH) as (body & post & -> & Hbody); [by eexists|].
      exists (b :: body), post. split; [done|].
      rewrite not_elem_of_cons. split; [congruence|done].
    + destruct (Byte.eqb b x7d) eqn:Hbrace.
      * apply byte_eqb_eq in Hbrace as ->. split; [intros _|by eexists].
        exists [], rest. split; [done|]. apply not_elem_of_nil.
      * apply byte_eqb_neq in Hbrace. split; [by intros [? ?]|].
        intros ([|c body] & post & Heq & Hbody).
        { injection Heq as -> _. done. }
        injection Heq as <- ->.
        rewrite not_elem_of_cons in Hbody. destruct Hbody as [_ Hbody].
        destruct (proj2 IH) as [? ?]; [by exists body, post|done].
Qed.

(** What [.*}] takes is on one line and ends with the brace. *)
Lemma dotStarBrace_shape s g :
  Regexp.dotStarBrace s = Some g →
  ∃ body, g = body ++ [x7d] ∧ LF ∉ body.
Proof.
  revert g. induction s as [|b rest IH]; intros g; simpl; [done|].
  destruct (Byte.eqb b LF) eqn:HLF; [done|].
  apply byte_eqb_neq in HLF.
  destruct (Regexp.dotStarBrace rest) as [g'|].
  - intros [= <-]. destruct (IH g' eq_refl) as (body & -> & Hbody).
    exists (b :: body). split; [done|].
    rewrite not_elem_of_cons. split; [congruence|done].
  - destruct (Byte.eqb b x7d) eqn:Hbrace; [|done].
    apply byte_eqb_eq in Hbrace as ->. intros [= <-].
    exists []. split; [done|]. apply not_elem_of_nil.
Qed.

Lemma newlineGroup_is_Some s :
  is_Some (Regexp.newlineGroup s) ↔
  ∃ body post, s = [LF] ++ [x7b] ++ body ++ [x7d] ++ post ∧ LF ∉ body.
Proof.
  unfold Regexp.newlineGroup.
  destruct (Regexp.literal [LF] s) as [s1|] eqn:H1; obind.
  2:{ split; [by intros [? ?]|]. intros (body & post & -> & _).
      by rewrite literal_app in H1. }
  apply literal_Some in H1 as ->.
  destruct (Regexp.literal [x7b] s1) as [s2|] eqn:H2; obind.
  2:{ split; [by intros [? ?]|]. intros (body & post & [= ->] & _).
      by rewrite literal_byte in H2. }
  apply literal_Some in H2 as ->.
  destruct (Regexp.dotStarBrace s2) as [g|] eqn:H3; obind.
  - split; [intros _|by eexists].
    destruct (proj1 (dotStarBrace_is_Some s2)) as (body & post & -> & Hb);
      [by eexists|].
    by exists body, post.
  - split; [by intros [? ?]|]. intros (body & post & [= ->] & Hb).
    destruct (proj2 (dotStarBrace_is_Some (body ++ [x7d] ++ post)))
      as [? ?]; [by exists body, post|cbn [app] in *; congruence].
Qed.

Lemma newlineGroup_shape s g :
  Regexp.newlineGroup s = Some g →
  ∃ body, g = [x7b] ++ body ++ [x7d] ∧ LF ∉ body.
Proof.
  unfold Regexp.newlineGroup.
  destruct (Regexp.literal [LF] s) as [s1|]; obind; [|done].
  destruct (Regexp.literal [x7b] s1) as [s2|]; obind; [|done].
  destruct (Regexp.dotStarBrace s2) as [g'|] eqn:H3; obind; [|done].
  intros [= <-]. destruct (dotStarBrace_shape _ _ H3) as (body & -> & ?).
  by exists body.
Qed.

Lemma crNewlineGroup_is_Some s :
  is_Some (Regexp.crNewlineGroup s) ↔
  ∃ cr body post,
    s = cr ++ [LF] ++ [x7b] ++ body ++ [x7d] ++ post ∧
    (cr = [] ∨ cr = [CR]) ∧ LF ∉ body.
Proof.
  unfold Regexp.crNewlineGroup. split.
  - destruct (Regexp.literal [CR] s) as [s1|] eqn:H1; obind.
    + apply literal_Some in H1 as ->.
      destruct (Regexp.newlineGroup s1) as [g|] eqn:Hg.
      * intros _. destruct (proj1 (newlineGroup_is_Some s1))
          as (body & post & -> & Hb); [by eexists|].
        exists [CR], body, post. split_and!; [done|by right|done].
      * intros (body & post & Heq & Hb)%newlineGroup_is_Some. done.
    + intros (body & post & -> & Hb)%newlineGroup_is_Some.
      exists [], body, post. split_and!; [done|by left|done].
  - intros (cr & body & post & -> & [-> | ->] & Hbody).
    + destruct (Regexp.literal [CR] _ ≫= Regexp.newlineGroup);
        [by eexists|].
      apply newlineGroup_is_Some. by exists body, post.
    + rewrite literal_app. obind.
      destruct (proj2 (newlineGroup_is_Some
        ([LF] ++ [x7b] ++ body ++ [x7d] ++ post))) as [g Hg];
        [by exists body, post|].
      rewrite Hg. by eexists.
Qed.

Lemma crNewlineGroup_shape s g :
  Regexp.crNewlineGroup s = Some g →
  ∃ body, g = [x7b] ++ body ++ [x7d] ∧ LF ∉ body.
Proof.
  unfold Regexp.crNewlineGroup.
  destruct (Regexp.literal [CR] s) as [s1|]; obind;
    [|apply newlineGroup_shape].
  destruct (Regexp.newlineGroup s1) as [g'|] eqn:Hg.
  - intros [= <-]. by eapply newlineGroup_shape.
  - apply newlineGroup_shape.
Qed.

Lemma matchHere_is_Some s :
  is_Some (Regexp.matchHere s) ↔
  ∃ version cr body post,
    s = bytesOf "BEGIN JIB JSON" ++ version ++ cr ++
        [LF] ++ [x7b] ++ body ++ [x7d] ++ post ∧
    (version = [] ∨ version = bytesOf ": SYNCMAP/1") ∧
    (cr = [] ∨ cr = [CR]) ∧ LF ∉ body.
Proof.
  unfold Regexp.matchHere.
  destruct (Regexp.literal (bytesOf "BEGIN JIB JSON") s) as [s1|] eqn:H1;
    obind.
  2:{ split; [by intros [? ?]|].
      intros (version & cr & body & post & -> & _).
      by rewrite literal_app in H1. }
  apply literal_Some in H1 as ->. split.
  - destruct (Regexp.literal (bytesOf ": SYNCMAP/1") s1) as [s2|] eqn:H2;
      obind.
    + apply literal_Some in H2 as ->.
      destruct (Regexp.crNewlineGroup s2) as [g|] eqn:Hg.
      * intros _. destruct (proj1 (crNewlineGroup_is_Some s2))
          as (cr & body & post & -> & Hcr & Hb); [by eexists|].
        exists (bytesOf ": SYNCMAP/1"), cr, body, post.
        split_and!; [done|by right|done|done].
      * intros (cr & body & post & Heq & [-> | ->] & Hb)%crNewlineGroup_is_Some;
          done.
    + intros (cr & body & post & -> & Hcr & Hb)%crNewlineGroup_is_Some.
      exists [], cr, body, post. split_and!; [done|by left|done|done].
  - intros (version & cr & body & post & Heq & [-> | ->] & Hcr & Hbody);
      apply app_inv_head in Heq as ->.
    + destruct (Regexp.literal _ _ ≫= Regexp.crNewlineGroup);
        [by eexists|].
      apply crNewlineGroup_is_Some. by exists cr, body, post.
    + rewrite (literal_app (bytesOf ": SYNCMAP/1")). obind.
      destruct (proj2 (crNewlineGroup_is_Some
        (cr ++ [LF] ++ [x7b] ++ body ++ [x7d] ++ post))) as [g Hg];
        [by exists cr, body, post|].
      rewrite Hg. by eexists.
Qed.

Lemma matchHere_shape s g :
  Regexp.matchHere s = Some g →
  ∃ body, g = [x7b] ++ body ++ [x7d] ∧ LF ∉ body.
Proof.
  unfold Regexp.matchHere.
  destruct (Regexp.literal (bytesOf "BEGIN JIB JSON") s) as [s1|]; obind;
    [|done].
  destruct (Regexp.literal (bytesOf ": SYNCMAP/1") s1) as [s2|]; obind;
    [|apply crNewlineGroup_shape].
  destruct (Regexp.crNewlineGroup s2) as [g'|] eqn:Hg.
  - intros [= <-]. by eapply crNewlineGroup_shape.
  - apply crNewlineGroup_shape.
Qed.

(** The search finds something exactly when the output holds the marker
    followed by a one-line payload. *)
Lemma FindSubmatch_is_Some stdout :
  is_Some (Regexp.FindSubmatch stdout) ↔ markerMatch stdout.
Proof.
  unfold markerMatch. induction stdout as [|b rest IH].
  - simpl. split; [by intros [? ?]|].
    intros ([|? ?] & ? & ? & ? & ? & Heq & _); done.
  - cbn [Regexp.FindSubmatch].
    destruct (Regexp.matchHere (b :: rest)) as [g|] eqn:Hhere.
    + split; [intros _|by eexists].
      destruct (proj1 (matchHere_is_Some (b :: rest)))
        as (version & cr & body & post & Heq & Hv & Hcr & Hb); [by eexists|].
      by exists [], version, cr, body, post.
    + rewrite IH. split.
      * intros (pre & version & cr & body & post & -> & ?).
        by exists (b :: pre), version, cr, body, post.
      * intros ([|c pre] & version & cr & body & post & Heq & Hv & Hcr & Hb).
        { simpl in Heq.
          destruct (proj2 (matchHere_is_Some (b :: rest))) as [? ?];
            [by exists version, cr, body, post|congruence]. }
        injection Heq as <- ->.
        by exists pre, version, cr, body, post.
Qed.

Lemma FindSubmatch_None stdout :
  Regexp.FindSubmatch stdout = None ↔ ¬ markerMatch stdout.
Proof.
  rewrite <- FindSubmatch_is_Some, eq_None_not_Some. done.
Qed.

Lemma FindSubmatch_shape stdout g :
  Regexp.FindSubmatch stdout = Some g →
  ∃ body, g = [x7b] ++ body ++ [x7d] ∧ LF ∉ body.
Proof.
  induction stdout as [|b rest IH]; cbn [Regexp.FindSubmatch].
  - destruct (Regexp.matchHere []) eqn:H; [|done].
    intros [= <-]. by eapply matchHere_shape.
  - destruct (Regexp.matchHere (b :: rest)) eqn:H; [|done].
    intros [= <-]. by eapply matchHere_shape.
Qed.

(** ** The adapter's result *)

Lemma addEntries_Err env isDirect entries :
  ∀ sm,
    (∃ err, addEntries env isDirect entries sm = Err err) ↔
    ∃ src err, src ∈ JSONSyncEntry.Src <$> entries ∧ Stat env src = Err err.
Proof.
  induction entries as [|de rest IH]; intros sm; simpl.
  - split; [by intros [? ?]|]. intros (? & ? & H & _). inversion H.
  - destruct (Stat env (JSONSyncEntry.Src de)) as [t|err0] eqn:Hstat.
    + rewrite IH. split.
      * intros (src & err & Hin & Herr). exists src, err.
        split; [by right|done].
      * intros (src & err & Hin & Herr). exists src, err.
        apply elem_of_cons in Hin as [->|Hin]; [congruence|done].
    + split; [intros _|by eexists].
      exists (JSONSyncEntry.Src de), err0. split; [left|done].
Qed.

(** After a pass over [entries], a key is what the last of the entries
    with that source made it, or what it was. *)
Lemma addEntries_Ok env isDirect entries :
  ∀ sm sm',
    addEntries env isDirect entries sm = Ok sm' →
    (∀ k, k ∈ JSONSyncEntry.Src <$> entries →
          ∃ v, sm' !! k = Some v ∧ IsDirect v = isDirect) ∧
    (∀ k, k ∉ JSONSyncEntry.Src <$> entries → sm' !! k = sm !! k) ∧
    (∀ k v, sm' !! k = Some v →
            sm !! k = Some v ∨
            (IsDirect v = isDirect ∧ Stat env k = Ok (FileTime v) ∧
             ∃ de, de ∈ entries ∧ JSONSyncEntry.Src de = k ∧
                   Dest v = [JSONSyncEntry.Dest de])).
Proof.
  induction entries as [|de rest IH]; intros sm sm'; simpl.
  - intros [= <-]. split_and!; [|done|by left].
    intros k H. inversion H.
  - destruct (Stat env (JSONSyncEntry.Src de)) as [t|] eqn:Hstat; [|done].
    intros (Hin & Hout & Hall)%IH. split_and!.
    + intros k Hk.
      destruct (decide (k ∈ JSONSyncEntry.Src <$> rest)) as [Hr|Hr];
        [by apply Hin|].
      apply elem_of_cons in Hk as [->|Hk]; [|done].
      rewrite (Hout _ Hr), lookup_insert_eq. by eexists.
    + intros k [Hne Hk]%not_elem_of_cons.
      rewrite (Hout k Hk). by rewrite lookup_insert_ne.
    + intros k v Hv. destruct (Hall k v Hv) as [Hold|(Hd & Ht & de' & ? & ? & ?)].
      * destruct (decide (JSONSyncEntry.Src de = k)) as [<-|Hne].
        -- rewrite lookup_insert_eq in Hold. injection Hold as <-.
           right. split_and!; [done..|]. exists de. split; [left|done].
        -- rewrite lookup_insert_ne in Hold by done. by left.
      * right. split_and!; [done..|]. exists de'. split; [by right|done].
Qed.



(** ** The scenarios of the specification, run *)

(** A modified direct file: the fast path copies it and the mapping
    computation is not invoked. *)
Example scenario_direct_file :
  let env := Scenario.world Scenario.fsNew Scenario.absInW (Ok Scenario.stdout) in
  let run := GetSyncDiff getSyncMap env (Scenario.modified ["/w/A.txt"]) Scenario.s0 in
  run.2 = {| toCopy := Some {["/w/A.txt" := ["/c/A.txt"]]};
             toDelete := None; err := None |} ∧
  trace run.1 = trace Scenario.s0.
Proof. split; vm_compute; reflexivity. Qed.

(** A modified generated file: the map is recomputed, and the file is
    copied because its time has changed; [C.txt] is new. *)
Example scenario_generated_file :
  let env := Scenario.world Scenario.fsNew Scenario.absInW (Ok Scenario.stdout) in
  let run := GetSyncDiff getSyncMap env (Scenario.modified ["/w/B.java"]) Scenario.s0 in
  run.2 = {| toCopy := Some (<["/w/B.java" := ["/c/B.class"]]>
                             (<["/w/C.txt" := ["/c/C.txt"]]>
                             (<["/w/A.txt" := ["/c/A.txt"]]> ∅)));
             toDelete := None; err := None |} ∧
  cached run.1 (getProjectKey env) = Some Scenario.snapshotNew.
Proof. split; vm_compute; reflexivity. Qed.

(** A modified build file: no sync. *)
Example scenario_build_file :
  let env := Scenario.world Scenario.fsNew Scenario.absInW (Ok Scenario.stdout) in
  GetSyncDiff getSyncMap env (Scenario.modified ["/w/pom.xml"]) Scenario.s0 =
    (Scenario.s0, noSync).
Proof. vm_compute; reflexivity. Qed.

(** No event at all: the fast path returns an empty, non-nil [toCopy]. *)
Example scenario_empty_event :
  let env := Scenario.world Scenario.fsNew Scenario.absInW (Ok Scenario.stdout) in
  GetSyncDiff getSyncMap env (Scenario.modified []) Scenario.s0 =
    (Scenario.s0, {| toCopy := Some ∅; toDelete := None; err := None |}).
Proof. vm_compute; reflexivity. Qed.

(** A direct file listed before a generated one: the fast path refreshes
    the time of [A.txt] in the old map and then gives up; the diff of the
    recomputation, taken against that refreshed map, leaves [A.txt]
    out. *)
Example scenario_direct_then_generated :
  let env := Scenario.world Scenario.fsNew Scenario.absInW (Ok Scenario.stdout) in
  let e := Scenario.modified ["/w/A.txt"; "/w/B.java"] in
  (GetSyncDiff getSyncMap env e Scenario.s0).2 =
    {| toCopy := Some (<["/w/B.java" := ["/c/B.class"]]>
                       (<["/w/C.txt" := ["/c/C.txt"]]> ∅));
       toDelete := None; err := None |}.
Proof. vm_compute; reflexivity. Qed.

(** The same path twice in [Modified]: [matches] has one key for two
    paths, and the call falls through to the recomputation. *)
Example scenario_duplicate_path :
  let env := Scenario.world Scenario.fsNew Scenario.absInW (Ok Scenario.stdout) in
  let e := Scenario.modified ["A.txt"; "/w/A.txt"] in
  let run := GetSyncDiff getSyncMap env e Scenario.s0 in
  calls (trace run.1) = S (calls (trace Scenario.s0)).
Proof. vm_compute; reflexivity. Qed.

(** ** The marker search, run *)

Example find_payload :
  Regexp.FindSubmatch Scenario.stdout = Some Scenario.payload.
Proof. vm_compute; reflexivity. Qed.

(** The group runs to the last closing brace of the line. *)
Example find_greedy :
  Regexp.FindSubmatch
    (bytesOf "BEGIN JIB JSON" ++ [LF] ++ bytesOf "{a}b}c" ++ [LF] ++ bytesOf "}")
  = Some (bytesOf "{a}b}").
Proof. vm_compute; reflexivity. Qed.

(** A payload on the line of the marker is not found, nor one that is
    broken over two lines. *)
Example find_same_line :
  Regexp.FindSubmatch (bytesOf "BEGIN JIB JSON {}") = None.
Proof. vm_compute; reflexivity. Qed.

Example find_broken_payload :
  Regexp.FindSubmatch
    (bytesOf "BEGIN JIB JSON" ++ [LF] ++ bytesOf "{" ++ [LF] ++ bytesOf "}")
  = None.
Proof. vm_compute; reflexivity. Qed.

(** A first marker without payload does not hide a later one. *)
Example find_second_marker :
  Regexp.FindSubmatch
    (bytesOf "BEGIN JIB JSON" ++ [LF] ++ bytesOf "oops" ++ [LF] ++
     bytesOf "BEGIN JIB JSON: SYNCMAP/1" ++ [LF] ++ bytesOf "{}")
  = Some (bytesOf "{}").
Proof. vm_compute; reflexivity. Qed.

Example escape_backslashes :
  bytesReplace (bytesOf "{C:\w\A.txt}") x5c [x5c; x5c]
  = bytesOf "{C:\\w\\A.txt}".
Proof. vm_compute; reflexivity. Qed.

(** * Further properties of the planner *)

(** ** Reading the cached map through its reference *)

Lemma cached_lookup s key k :
  cached s key ≫= (.!! k) = mapIndex (heap s) (syncLists s !! key) k.
Proof.
  unfold cached, mapIndex. destruct (syncLists s !! key) as [l|]; [|done].
  simpl. by destruct (heap s !! l).
Qed.

Lemma mapContents_lookup h r k : mapContents h r !! k = mapIndex h r k.
Proof.
  unfold mapContents, mapIndex. destruct r as [l|]; simpl; [|done].
  by destruct (h !! l).
Qed.

Lemma mapIndex_mapAssign h r k0 v0 v k :
  mapIndex h r k0 = Some v0 →
  mapIndex (mapAssign h r k0 v) r k =
    if decide (k = k0) then Some v else mapIndex h r k.
Proof.
  intros Hidx.
  destruct (mapAssign_indexed h r k0 v0 v Hidx) as (l & m & -> & Hl & _ & ->).
  unfold mapIndex. simpl. rewrite lookup_insert_eq, Hl. simpl.
  case_decide as Hk; [subst; by rewrite lookup_insert_eq|].
  by rewrite lookup_insert_ne.
Qed.

(** ** The loop of the fast path, step by step *)

(** The loop records a path only after it has found it as a direct entry;
    it ends with as many keys as paths only when no path made it stop. *)
Lemma directLoop_size env r h0 modified :
  ∀ h matches h' matches',
    heapRefresh r h0 h →
    directLoop env h r matches modified = LoopEnd h' matches' →
    size matches' ≤ size matches + length modified ∧
    (size matches' = size matches + length modified →
     ∀ f, f ∈ modified → ∃ k v t,
       toAbs env f = Ok k ∧ mapIndex h0 r k = Some v ∧
       IsDirect v = true ∧ Stat env k = Ok t).
Proof.
  induction modified as [|f rest IH]; intros h matches h' matches' Hh; simpl.
  - intros [= <- <-]. split; [lia|]. intros _ f Hf. inversion Hf.
  - destruct (toAbs env f) as [k|] eqn:Hk; [|done].
    destruct (mapIndex h r k) as [v|] eqn:Hidx; simpl.
    2:{ intros [= <- <-]. split; lia. }
    destruct (IsDirect v) eqn:Hdir; simpl.
    2:{ intros [= <- <-]. split; lia. }
    destruct (Stat env k) as [t|] eqn:Hstat; [|done].
    intros Hloop. apply IH in Hloop as [Hle Heq].
    2:{ eapply heapRefresh_trans; [exact Hh|].
        rewrite <- Hdir. apply heapRefresh_assign; [done|by rewrite Hdir]. }
    assert (size (<[k := Dest v]> matches) ≤ S (size matches)) as Hins.
    { destruct (matches !! k) eqn:Hm.
      - rewrite map_size_insert_Some by done. lia.
      - rewrite map_size_insert_None by done. lia. }
    split; [lia|]. intros Hsize f0 [->|Hf0]%elem_of_cons.
    + pose proof (heapRefresh_mapIndex r h0 h k Hh) as Hv.
      rewrite Hidx in Hv. inversion Hv as [v0 ? (Hd & Hi & _) Hv0|]; subst.
      exists k, v0, t. split_and!; [done|done|congruence|done].
    + apply Heq; [lia|done].
Qed.

(** Every destination the loop records is that of a cached entry. *)
Lemma directLoop_values env r h0 modified :
  ∀ h matches h' matches',
    heapRefresh r h0 h →
    directLoop env h r matches modified = LoopEnd h' matches' →
    ∀ k dst, matches' !! k = Some dst →
      matches !! k = Some dst ∨
      ∃ v, mapIndex h0 r k = Some v ∧ IsDirect v = true ∧ dst = Dest v.
Proof.
  induction modified as [|f rest IH]; intros h matches h' matches' Hh; simpl.
  - intros [= <- <-] k dst ?. by left.
  - destruct (toAbs env f) as [k0|] eqn:Hk; [|done].
    destruct (mapIndex h r k0) as [v|] eqn:Hidx; simpl.
    2:{ intros [= <- <-] k dst ?. by left. }
    destruct (IsDirect v) eqn:Hdir; simpl.
    2:{ intros [= <- <-] k dst ?. by left. }
    destruct (Stat env k0) as [t|] eqn:Hstat; [|done].
    intros Hloop k dst Hdst.
    assert (heapRefresh r h0
      (mapAssign h r k0
         {| Dest := Dest v; FileTime := t; IsDirect := true |})) as Hh'.
    { eapply heapRefresh_trans; [exact Hh|].
      rewrite <- Hdir. apply heapRefresh_assign; [done|by rewrite Hdir]. }
    destruct (IH _ _ _ _ Hh' Hloop k dst Hdst) as [Hold|Hnew]; [|by right].
    destruct (decide (k0 = k)) as [<-|Hne].
    + rewrite lookup_insert_eq in Hold. injection Hold as <-. right.
      pose proof (heapRefresh_mapIndex r h0 h k0 Hh) as Hv.
      rewrite Hidx in Hv. inversion Hv as [v0 ? (Hd & Hi & _) Hv0|]; subst.
      exists v0. split_and!; [done|congruence|done].
    + rewrite lookup_insert_ne in Hold by done. by left.
Qed.

(** A key once recorded stays recorded. *)
Lemma directLoop_keeps_keys env r modified k :
  ∀ h matches h' matches',
    directLoop env h r matches modified = LoopEnd h' matches' →
    is_Some (matches !! k) → is_Some (matches' !! k).
Proof.
  induction modified as [|f rest IH]; intros h matches h' matches'; simpl.
  - by intros [= <- <-].
  - destruct (toAbs env f) as [k0|]; [|done].
    destruct (mapIndex h r k0) as [v|]; simpl; [|by intros [= <- <-]].
    destruct (IsDirect v); simpl; [|by intros [= <- <-]].
    destruct (Stat env k0); [|done].
    intros Hloop Hk. eapply IH; [exact Hloop|].
    destruct (decide (k0 = k)) as [->|?];
      [rewrite lookup_insert_eq; by eexists | by rewrite lookup_insert_ne].
Qed.

(** The entries the loop has recorded carry the time [Stat] gives. *)
Lemma directLoop_recorded env r modified :
  ∀ h matches h' matches',
    (∀ k, is_Some (matches !! k) →
          ∃ v, mapIndex h r k = Some v ∧ Stat env k = Ok (FileTime v)) →
    directLoop env h r matches modified = LoopEnd h' matches' →
    ∀ k, is_Some (matches' !! k) →
         ∃ v, mapIndex h' r k = Some v ∧ Stat env k = Ok (FileTime v).
Proof.
  induction modified as [|f rest IH]; intros h matches h' matches' Hinv; simpl.
  - by intros [= <- <-].
  - destruct (toAbs env f) as [k0|] eqn:Hk; [|done].
    destruct (mapIndex h r k0) as [v|] eqn:Hidx; simpl;
      [|by intros [= <- <-]].
    destruct (IsDirect v) eqn:Hdir; simpl; [|by intros [= <- <-]].
    destruct (Stat env k0) as [t|] eqn:Hstat; [|done].
    apply IH. intros k Hk0.
    rewrite (mapIndex_mapAssign _ _ _ v) by done.
    case_decide as Hkk; [subst k; by eexists|].
    apply Hinv. by rewrite lookup_insert_ne in Hk0.
Qed.

(** The others are as they were. *)
Lemma directLoop_untouched env r modified :
  ∀ h matches h' matches',
    directLoop env h r matches modified = LoopEnd h' matches' →
    ∀ k, matches' !! k = None → mapIndex h' r k = mapIndex h r k.
Proof.
  induction modified as [|f rest IH]; intros h matches h' matches'; simpl.
  - by intros [= <- <-].
  - destruct (toAbs env f) as [k0|] eqn:Hk; [|done].
    destruct (mapIndex h r k0) as [v|] eqn:Hidx; simpl;
      [|by intros [= <- <-]].
    destruct (IsDirect v) eqn:Hdir; simpl; [|by intros [= <- <-]].
    destruct (Stat env k0) as [t|] eqn:Hstat; [|done].
    intros Hloop k Hnone.
    rewrite (IH _ _ _ _ Hloop k Hnone).
    rewrite (mapIndex_mapAssign _ _ _ v) by done.
    case_decide as Hkk; [|done]. subst k.
    destruct (directLoop_keeps_keys env r rest k0 _ _ _ _ Hloop) as [? ?];
      [rewrite lookup_insert_eq; by eexists | congruence].
Qed.

(** ** When the fast path returns *)

(** A call that returns a [toCopy] without having invoked the mapping
    computation has returned from line 116. *)
Lemma fast_path_return gsm env e s m :
  toCopy (GetSyncDiff gsm env e s).2 = Some m →
  calls (trace (GetSyncDiff gsm env e s).1) = calls (trace s) →
  Added e = [] ∧ Deleted e = [] ∧
  ∃ h', directLoop env (heap s) (syncLists s !! getProjectKey env) ∅
          (Modified e) = LoopEnd h' m ∧
        size m = length (Modified e) ∧
        (GetSyncDiff gsm env e s).1 = setHeap h' s.
Proof.
  unfold GetSyncDiff.
  destruct (buildFileGuard env _ _); [done|done|].
  destruct (Deleted e) as [|? ?] eqn:Hdel; [|done]. simpl.
  unfold directFastPath. rewrite Hdel. simpl.
  destruct (Added e) as [|? ?] eqn:Hadd; simpl.
  - destruct (directLoop env _ _ _ _) as [h err|h m'] eqn:Hloop; [done|].
    destruct (size m' =? length (Modified e))%nat eqn:Hsize; simpl.
    + intros [= <-] _. apply Nat.eqb_eq in Hsize. split_and!; [done..|].
      by exists h.
    + unfold fullRecompute. destruct (gsm env); simpl;
        rewrite ?calls_app; simpl; intros; lia.
  - unfold fullRecompute. destruct (gsm env); simpl;
      rewrite ?calls_app; simpl; intros; lia.
Qed.

(** X1.  [GetSyncDiff] returns a [toCopy] without invoking the mapping
    computation only for an event without added or deleted paths whose
    modified paths all resolve to direct entries of the cached map; each
    of them is then in [toCopy] with its cached destinations. *)
Theorem fast_path_only_direct gsm env e s m :
  let s' := (GetSyncDiff gsm env e s).1 in
  let d := (GetSyncDiff gsm env e s).2 in
  let r := syncLists s !! getProjectKey env in
  toCopy d = Some m →
  calls (trace s') = calls (trace s) →
  Added e = [] ∧ Deleted e = [] ∧
  ∀ f, f ∈ Modified e → ∃ k v,
    toAbs env f = Ok k ∧ mapIndex (heap s) r k = Some v ∧
    IsDirect v = true ∧ m !! k = Some (Dest v).
Proof.
  intros s' d r Hm Hcalls.
  destruct (fast_path_return gsm env e s m Hm Hcalls)
    as (Hadd & Hdel & h' & Hloop & Hsize & _). fold r in Hloop.
  split_and!; [done..|].
  destruct (directLoop_size env r (heap s) (Modified e) (heap s) ∅ h' m
              (heapRefresh_refl _ _) Hloop) as [_ Hall].
  rewrite map_size_empty in Hall. specialize (Hall Hsize).
  destruct (directLoop_all_direct env r (heap s) (Modified e) (heap s) ∅
              (heapRefresh_refl _ _) Hall)
    as (h'' & m'' & Hloop' & _ & Hin & _).
  rewrite Hloop in Hloop'. injection Hloop' as <- <-.
  intros f Hf. destruct (Hall f Hf) as (k & v & t & Hk & Hv & Hd & _).
  exists k, v. split_and!; [done..|].
  rewrite Hin, Hv; [done|]. apply elem_of_absPaths. by exists f.
Qed.

Lemma fast_path_only_direct_witness :
  let gsm := getSyncMap in
  let env := Scenario.world Scenario.fsNew Scenario.absInW (Ok Scenario.stdout) in
  let e := Scenario.modified ["A.txt"] in
  let s := Scenario.s0 in
  let m : gmap string (list string) := {["/w/A.txt" := ["/c/A.txt"]]} in
  let s' := (GetSyncDiff gsm env e s).1 in
  let d := (GetSyncDiff gsm env e s).2 in
  let r := syncLists s !! getProjectKey env in
  toCopy d = Some m ∧
  calls (trace s') = calls (trace s) ∧
  Added e = [] ∧ Deleted e = [] ∧
  ∀ f, f ∈ Modified e → ∃ k v,
    toAbs env f = Ok k ∧ mapIndex (heap s) r k = Some v ∧
    IsDirect v = true ∧ m !! k = Some (Dest v).
Proof.
  intros gsm env e s m s' d r.
  assert (Ha : toCopy d = Some m) by (vm_compute; reflexivity).
  assert (Hb : calls (trace s') = calls (trace s))
    by (vm_compute; reflexivity).
  exact (conj Ha (conj Hb (fast_path_only_direct gsm env e s m Ha Hb))).
Defined.

(** X2.  When the fast path returns, every entry of the cached map whose
    key is in [toCopy] carries the modification time [Stat] gives for
    that key, and every other key of the cached map is as it was. *)
Theorem fast_path_refreshes_times gsm env e s m :
  let s' := (GetSyncDiff gsm env e s).1 in
  let d := (GetSyncDiff gsm env e s).2 in
  let key := getProjectKey env in
  toCopy d = Some m →
  calls (trace s') = calls (trace s) →
  ∀ k,
    (is_Some (m !! k) →
     ∃ v, cached s' key ≫= (.!! k) = Some v ∧
          Stat env k = Ok (FileTime v)) ∧
    (m !! k = None →
     cached s' key ≫= (.!! k) = cached s key ≫= (.!! k)).
Proof.
  intros s' d key Hm Hcalls k. subst s' d.
  destruct (fast_path_return gsm env e s m Hm Hcalls)
    as (_ & _ & h' & Hloop & _ & ->).
  rewrite !cached_lookup. simpl. fold key in Hloop |- *. split.
  - eapply directLoop_recorded; [|exact Hloop].
    intros k' [? Hk']. by rewrite lookup_empty in Hk'.
  - by eapply directLoop_untouched.
Qed.

Lemma fast_path_refreshes_times_witness :
  let gsm := getSyncMap in
  let env := Scenario.world Scenario.fsNew Scenario.absInW (Ok Scenario.stdout) in
  let e := Scenario.modified ["A.txt"] in
  let s := Scenario.s0 in
  let m : gmap string (list string) := {["/w/A.txt" := ["/c/A.txt"]]} in
  let s' := (GetSyncDiff gsm env e s).1 in
  let d := (GetSyncDiff gsm env e s).2 in
  let key := getProjectKey env in
  toCopy d = Some m ∧
  calls (trace s') = calls (trace s) ∧
  ∀ k,
    (is_Some (m !! k) →
     ∃ v, cached s' key ≫= (.!! k) = Some v ∧
          Stat env k = Ok (FileTime v)) ∧
    (m !! k = None →
     cached s' key ≫= (.!! k) = cached s key ≫= (.!! k)).
Proof.
  intros gsm env e s m s' d key.
  assert (Ha : toCopy d = Some m) by (vm_compute; reflexivity).
  assert (Hb : calls (trace s') = calls (trace s))
    by (vm_compute; reflexivity).
  exact (conj Ha (conj Hb (fast_path_refreshes_times gsm env e s m Ha Hb))).
Defined.

(** ** The result depends on the snapshot of the project key alone *)

Lemma directLoop_sim env modified :
  ∀ h1 r1 h2 r2 matches,
    (∀ k, mapIndex h1 r1 k = mapIndex h2 r2 k) →
    match directLoop env h1 r1 matches modified,
          directLoop env h2 r2 matches modified with
    | LoopError h1' e1, LoopError h2' e2 =>
        e1 = e2 ∧ ∀ k, mapIndex h1' r1 k = mapIndex h2' r2 k
    | LoopEnd h1' m1, LoopEnd h2' m2 =>
        m1 = m2 ∧ ∀ k, mapIndex h1' r1 k = mapIndex h2' r2 k
    | _, _ => False
    end.
Proof.
  induction modified as [|f rest IH]; intros h1 r1 h2 r2 matches Hsame; simpl.
  - done.
  - destruct (toAbs env f) as [k0|]; [|done].
    rewrite <- (Hsame k0).
    destruct (mapIndex h1 r1 k0) as [v|] eqn:Hidx; simpl; [|done].
    destruct (IsDirect v); simpl; [|done].
    destruct (Stat env k0) as [t|]; [|done].
    apply IH. intros k.
    rewrite !(mapIndex_mapAssign _ _ _ v) by (by rewrite <- ?Hsame).
    by case_decide.
Qed.

Lemma cached_ext s1 s2 key :
  (is_Some (cached s1 key) ↔ is_Some (cached s2 key)) →
  (∀ k, cached s1 key ≫= (.!! k) = cached s2 key ≫= (.!! k)) →
  cached s1 key = cached s2 key.
Proof.
  intros Hsome Hk.
  destruct (cached s1 key) as [m1|], (cached s2 key) as [m2|]; simpl in *.
  - f_equal. by apply map_eq.
  - destruct (proj1 Hsome) as [? ?]; [by eexists|done].
  - destruct (proj2 Hsome) as [? ?]; [by eexists|done].
  - done.
Qed.

Lemma cached_setHeap_is_Some r h s key :
  r = syncLists s !! key → heapRefresh r (heap s) h →
  is_Some (cached (setHeap h s) key) ↔ is_Some (cached s key).
Proof.
  intros -> Hh. unfold cached. simpl.
  destruct (syncLists s !! key) as [l|]; simpl; [|done].
  rewrite <- !elem_of_dom. by rewrite (heapRefresh_dom _ _ _ Hh).
Qed.

Lemma cached_storeNew key N s : cached (storeNew key N s) key = Some N.
Proof.
  unfold cached, storeNew. simpl. rewrite lookup_insert_eq. simpl.
  by rewrite lookup_insert_eq.
Qed.

(** X3.  On well-formed stores, what [GetSyncDiff] returns and the
    snapshot it leaves for the project key depend on the store only
    through the snapshot cached for that project key: whatever else the
    store holds for other projects makes no difference. *)
Theorem result_depends_on_own_snapshot gsm env e s1 s2 :
  let key := getProjectKey env in
  let run1 := GetSyncDiff gsm env e s1 in
  let run2 := GetSyncDiff gsm env e s2 in
  wfState s1 → wfState s2 →
  cached s1 key = cached s2 key →
  run1.2 = run2.2 ∧ cached run1.1 key = cached run2.1 key.
Proof.
  intros key run1 run2 Hwf1 Hwf2 Hcached. subst run1 run2.
  assert (∀ k, mapIndex (heap s1) (syncLists s1 !! key) k =
               mapIndex (heap s2) (syncLists s2 !! key) k) as Hidx.
  { intros k. by rewrite <- !cached_lookup, Hcached. }
  unfold GetSyncDiff. fold key.
  destruct (buildFileGuard env _ _); [done|done|].
  destruct (negb _); [done|].
  unfold directFastPath.
  set (r1 := syncLists s1 !! key) in *. set (r2 := syncLists s2 !! key) in *.
  assert (∀ h1 h2,
    heapRefresh r1 (heap s1) h1 → heapRefresh r2 (heap s2) h2 →
    (∀ k, mapIndex h1 r1 k = mapIndex h2 r2 k) →
    cached (setHeap h1 s1) key = cached (setHeap h2 s2) key) as Hkeep.
  { intros h1 h2 Hh1 Hh2 Hk. apply cached_ext.
    - rewrite (cached_setHeap_is_Some r1), (cached_setHeap_is_Some r2)
        by done. by rewrite Hcached.
    - intros k. rewrite !cached_lookup. apply Hk. }
  assert (∀ h1 h2,
    heapRefresh r1 (heap s1) h1 → heapRefresh r2 (heap s2) h2 →
    (∀ k, mapIndex h1 r1 k = mapIndex h2 r2 k) →
    (fullRecompute gsm env (setHeap h1 s1) r1).2 =
      (fullRecompute gsm env (setHeap h2 s2) r2).2 ∧
    cached (fullRecompute gsm env (setHeap h1 s1) r1).1 key =
      cached (fullRecompute gsm env (setHeap h2 s2) r2).1 key) as Hfull.
  { intros h1 h2 Hh1 Hh2 Hk. unfold fullRecompute.
    destruct (gsm env) as [N|err]; simpl; [|split; [done|by apply Hkeep]].
    split.
    - do 2 f_equal. f_equal. apply map_eq. intros k.
      rewrite !old_map_kept, !mapContents_lookup; [done|..].
      + intros l Hl. apply elem_of_dom. rewrite (heapRefresh_dom _ _ _ Hh2).
        apply elem_of_dom. destruct Hwf2 as [Hd _]. by eapply Hd.
      + intros l Hl. apply elem_of_dom. rewrite (heapRefresh_dom _ _ _ Hh1).
        apply elem_of_dom. destruct Hwf1 as [Hd _]. by eapply Hd.
    - unfold cached. simpl. fold key. by rewrite !lookup_insert_eq; simpl;
        rewrite !lookup_insert_eq. }
  destruct ((length (Deleted e) =? 0)%nat && (length (Added e) =? 0)%nat).
  2:{ rewrite <- (setHeap_same s1), <- (setHeap_same s2).
      apply Hfull; [apply heapRefresh_refl..|done]. }
  pose proof (directLoop_sim env (Modified e) _ _ _ _ ∅ Hidx) as Hsim.
  pose proof (directLoop_refresh env r1 (Modified e) (heap s1) ∅) as Hr1.
  pose proof (directLoop_refresh env r2 (Modified e) (heap s2) ∅) as Hr2.
  destruct (directLoop env (heap s1) r1 ∅ (Modified e)) as [h1 e1|h1 m1],
           (directLoop env (heap s2) r2 ∅ (Modified e)) as [h2 e2|h2 m2];
    try done; simpl in Hr1, Hr2; destruct Hsim as [<- Hk].
  - simpl. split; [done|by apply Hkeep].
  - destruct (size m1 =? _)%nat; simpl; [|by apply Hfull].
    split; [done|by apply Hkeep].
Qed.

Lemma result_depends_on_own_snapshot_witness :
  let gsm := getSyncMap in
  let env := Scenario.world Scenario.fsNew Scenario.absInW (Ok Scenario.stdout) in
  let e := Scenario.modified ["/w/B.java"] in
  let s1 := Scenario.s0 in
  let s2 := Scenario2.s0both in
  let key := getProjectKey env in
  let run1 := GetSyncDiff gsm env e s1 in
  let run2 := GetSyncDiff gsm env e s2 in
  wfState s1 ∧ wfState s2 ∧ cached s1 key = cached s2 key ∧
  run1.2 = run2.2 ∧ cached run1.1 key = cached run2.1 key.
Proof.
  intros gsm env e s1 s2 key run1 run2.
  assert (Ha : wfState s1)
    by (apply (reachable_wf (λ _, Ok Scenario.baseline));
        apply reach_InitSync, reach_init).
  assert (Hb : wfState s2)
    by (apply (reachable_wf (λ _, Ok Scenario.baseline));
        apply reach_InitSync, reach_InitSync, reach_init).
  assert (Hc : cached s1 key = cached s2 key) by (vm_compute; reflexivity).
  exact (conj Ha (conj Hb (conj Hc
    (result_depends_on_own_snapshot gsm env e s1 s2 Ha Hb Hc)))).
Defined.

(** ** Where a hard error comes from *)

Lemma toAbs_Err env f e0 :
  toAbs env f = Err e0 →
  IsAbs env f = false ∧ ∃ err, Abs env f = Err err ∧ e0 = WithStack err.
Proof.
  unfold toAbs. destruct (IsAbs env f); simpl; [done|].
  destruct (Abs env f) as [?|err]; [done|]. intros [= <-].
  split; [done|]. by exists err.
Qed.

Lemma buildFileGuard_error env buildFiles modified e0 :
  buildFileGuard env buildFiles modified = GuardError e0 →
  ∃ f err, f ∈ modified ∧ IsAbs env f = false ∧ Abs env f = Err err ∧
           e0 = WithStack (WithStack err).
Proof.
  induction modified as [|f rest IH]; simpl; [done|].
  destruct (toAbs env f) as [k|e1] eqn:Hf.
  - destruct (isBuildFile k buildFiles); [done|].
    intros (g & err & ? & ?)%IH. exists g, err. split; [by right|done].
  - intros [= <-]. apply toAbs_Err in Hf as (Habs & err & Herr & ->).
    exists f, err. split; [left|done].
Qed.

(** Once the guard has passed, every modified path has resolved, to
    something that is not a build file. *)
Lemma buildFileGuard_pass_inv env buildFiles modified :
  buildFileGuard env buildFiles modified = GuardPass →
  ∀ f, f ∈ modified → ∃ k, toAbs env f = Ok k ∧ k ∉ buildFiles.
Proof.
  induction modified as [|g rest IH]; simpl.
  - intros _ f Hf. inversion Hf.
  - destruct (toAbs env g) as [k|] eqn:Hg; [|done].
    destruct (isBuildFile k buildFiles) eqn:Hb; [done|].
    intros Hpass f [->|Hf]%elem_of_cons; [|by apply IH].
    exists k. split; [done|]. by apply isBuildFile_not_elem.
Qed.

Lemma directLoop_error env r modified :
  ∀ h matches h' e0,
    directLoop env h r matches modified = LoopError h' e0 →
    (∃ f err, f ∈ modified ∧ toAbs env f = Err err ∧ e0 = WithStack err) ∨
    (∃ f k v err, f ∈ modified ∧ toAbs env f = Ok k ∧
        mapIndex h' r k = Some v ∧ IsDirect v = true ∧
        Stat env k = Err err ∧
        e0 = Wrap err "could not obtain file mod time").
Proof.
  induction modified as [|f rest IH]; intros h matches h' e0; simpl; [done|].
  destruct (toAbs env f) as [k|e1] eqn:Hf.
  2:{ intros [= <- <-]. left. exists f, e1. split; [left|done]. }
  destruct (mapIndex h r k) as [v|] eqn:Hidx; simpl; [|done].
  destruct (IsDirect v) eqn:Hdir; simpl; [|done].
  destruct (Stat env k) as [t|err] eqn:Hstat.
  - intros [(g & err & ? & ?)|(g & k' & v' & err & ? & ?)]%IH.
    + left. exists g, err. split; [by right|done].
    + right. exists g, k', v', err. split; [by right|done].
  - intros [= <- <-]. right. exists f, k, v, err.
    split_and!; [left|done..].
Qed.

(** X4.  An error returned by [GetSyncDiff] is one of three: a relative
    modified path that [filepath.Abs] could not resolve, wrapped twice
    with a stack; a modified path found as a direct entry of the cached
    map that could not be stat'ed, wrapped with the message of line 107;
    or the error of the mapping computation, as it is.  An event whose
    modified paths are all absolute never fails on path resolution. *)
Theorem hard_error_origins gsm env e s e0 :
  let d := (GetSyncDiff gsm env e s).2 in
  let s' := (GetSyncDiff gsm env e s).1 in
  err d = Some e0 →
  (∃ f err, f ∈ Modified e ∧ IsAbs env f = false ∧ Abs env f = Err err ∧
            e0 = WithStack (WithStack err)) ∨
  (∃ f k v err, f ∈ Modified e ∧ toAbs env f = Ok k ∧
       cached s' (getProjectKey env) ≫= (.!! k) = Some v ∧
       IsDirect v = true ∧ Stat env k = Err err ∧
       e0 = Wrap err "could not obtain file mod time") ∨
  gsm env = Err e0.
Proof.
  intros d s'. subst d s'. unfold GetSyncDiff.
  destruct (buildFileGuard env _ _) as [eg| |] eqn:Hguard; [|done|].
  { simpl. intros [= <-]. left. by eapply buildFileGuard_error. }
  destruct (negb _); [done|].
  unfold directFastPath.
  assert (∀ s1, err (fullRecompute gsm env s1
                       (syncLists s !! getProjectKey env)).2 = Some e0 →
                gsm env = Err e0) as Hfull.
  { intros s1. unfold fullRecompute. destruct (gsm env); [done|].
    simpl. by intros [= <-]. }
  destruct (_ && _); [|intros ?; right; right; by eapply Hfull].
  destruct (directLoop env _ _ _ _) as [h' el|h' m] eqn:Hloop.
  - simpl. intros [= <-]. right. left.
    apply directLoop_error in Hloop
      as [(f & err & Hf & Hbad & _)|(f & k & v & err & ?)].
    + destruct (buildFileGuard_pass_inv _ _ _ Hguard f Hf) as (? & ? & _).
      congruence.
    + exists f, k, v, err. by rewrite cached_lookup.
  - destruct (_ =? _)%nat; [done|].
    intros ?. right. right. by eapply Hfull.
Qed.

Lemma hard_error_origins_witness :
  let gsm := getSyncMap in
  let env := Scenario.world [] Scenario.absInW (Ok Scenario.stdout) in
  let e := Scenario.modified ["/w/A.txt"] in
  let s := Scenario.s0 in
  let e0 := Wrap (External "no such file or directory")
              "could not obtain file mod time" in
  let d := (GetSyncDiff gsm env e s).2 in
  let s' := (GetSyncDiff gsm env e s).1 in
  err d = Some e0 ∧
  ((∃ f err, f ∈ Modified e ∧ IsAbs env f = false ∧ Abs env f = Err err ∧
             e0 = WithStack (WithStack err)) ∨
   (∃ f k v err, f ∈ Modified e ∧ toAbs env f = Ok k ∧
        cached s' (getProjectKey env) ≫= (.!! k) = Some v ∧
        IsDirect v = true ∧ Stat env k = Err err ∧
        e0 = Wrap err "could not obtain file mod time") ∨
   gsm env = Err e0).
Proof.
  intros gsm env e s e0 d s'.
  assert (Ha : err d = Some e0) by (vm_compute; reflexivity).
  exact (conj Ha (hard_error_origins gsm env e s e0 Ha)).
Defined.

(** ** Without a baseline *)

Lemma syncMapDiff_empty (N : SyncMap) : syncMapDiff N ∅ = Dest <$> N.
Proof.
  apply map_eq. intros k. rewrite syncMapDiff_lookup, lookup_fmap.
  unfold diffEntry. destruct (N !! k); simpl; [|done].
  by rewrite lookup_empty.
Qed.

(** X5.  When the store holds nothing for the project key and the event
    names a modified path, [GetSyncDiff] can return a [toCopy] only by
    going through the mapping computation: [toCopy] is then the whole new
    map, every key with its destinations, and the new map is the
    baseline. *)
Theorem no_baseline_copies_everything gsm env e s m :
  let s' := (GetSyncDiff gsm env e s).1 in
  let d := (GetSyncDiff gsm env e s).2 in
  let key := getProjectKey env in
  syncLists s !! key = None →
  Modified e ≠ [] →
  toCopy d = Some m →
  ∃ N, gsm env = Ok N ∧ m = Dest <$> N ∧ cached s' key = Some N ∧
       calls (trace s') = S (calls (trace s)).
Proof.
  intros s' d key Hnone Hmod Hm. subst s' d key.
  destruct (GetSyncDiff gsm env e s) as [s' d] eqn:Hrun. simpl in *.
  destruct (GetSyncDiff_anatomy _ _ _ _ _ _ Hrun)
    as (h1 & _ & _ & _ &
        [(_ & _ & Hc & _)|[(_ & _ & _ & ? & _ & ->)|
                           (N & HN & Hc & Hs & Hh & ->)]]); [|done|].
  - exfalso.
    pose proof (fast_path_return gsm env e s m) as Hfast.
    rewrite Hrun in Hfast. simpl in Hfast.
    destruct (Hfast Hm Hc) as (_ & _ & h' & Hloop & Hsize & _).
    rewrite Hnone in Hloop.
    destruct (Modified e) as [|f rest]; [done|]. simpl in Hloop.
    destruct (toAbs env f); [|done]. simpl in Hloop.
    injection Hloop as _ <-. by rewrite map_size_empty in Hsize.
  - exists N. split_and!; [done| | |done].
    + simpl in Hm. injection Hm as <-. rewrite Hnone.
      unfold mapContents. simpl. apply syncMapDiff_empty.
    + unfold cached. rewrite Hs, lookup_insert_eq. simpl.
      by rewrite Hh, lookup_insert_eq.
Qed.

Lemma no_baseline_copies_everything_witness :
  let gsm := getSyncMap in
  let env := Scenario.world Scenario.fsNew Scenario.absInW (Ok Scenario.stdout) in
  let e := Scenario.modified ["/w/A.txt"] in
  let s := Scenario2.sOther in
  let m := Dest <$> Scenario.snapshotNew in
  let s' := (GetSyncDiff gsm env e s).1 in
  let d := (GetSyncDiff gsm env e s).2 in
  let key := getProjectKey env in
  syncLists s !! key = None ∧ Modified e ≠ [] ∧ toCopy d = Some m ∧
  ∃ N, gsm env = Ok N ∧ m = Dest <$> N ∧ cached s' key = Some N ∧
       calls (trace s') = S (calls (trace s)).
Proof.
  intros gsm env e s m s' d key.
  assert (Ha : syncLists s !! key = None) by (vm_compute; reflexivity).
  assert (Hb : Modified e ≠ []) by discriminate.
  assert (Hc : toCopy d = Some m) by (vm_compute; reflexivity).
  exact (conj Ha (conj Hb (conj Hc
    (no_baseline_copies_everything gsm env e s m Ha Hb Hc)))).
Defined.

(** ** The new map becomes the baseline *)

(** X6.  When the mapping computation yields [N], [InitSync] succeeds and
    leaves [N] as the snapshot of the project key, and so does every call
    of [GetSyncDiff] that invokes the mapping computation, which then
    returns no error. *)
Theorem new_map_becomes_baseline gsm env e s N :
  let key := getProjectKey env in
  let i := InitSync gsm env s in
  let s' := (GetSyncDiff gsm env e s).1 in
  let d := (GetSyncDiff gsm env e s).2 in
  gsm env = Ok N →
  (i.2 = None ∧ cached i.1 key = Some N) ∧
  (calls (trace s') = S (calls (trace s)) →
   err d = None ∧ cached s' key = Some N).
Proof.
  intros key i s' d HN. subst i s' d key. split.
  - unfold InitSync. rewrite HN. simpl. split; [done|].
    apply cached_storeNew.
  - destruct (GetSyncDiff gsm env e s) as [s' d] eqn:Hrun. simpl.
    destruct (GetSyncDiff_anatomy _ _ _ _ _ _ Hrun)
      as (h1 & _ & _ & _ &
          [(_ & _ & Hc & _)|[(_ & _ & _ & ? & ? & _)|
                             (N' & HN' & _ & Hs & Hh & ->)]]);
      [lia|congruence|].
    assert (N' = N) as -> by congruence. intros _. split; [done|].
    unfold cached. rewrite Hs, lookup_insert_eq. simpl.
    by rewrite Hh, lookup_insert_eq.
Qed.

Lemma new_map_becomes_baseline_witness :
  let gsm := getSyncMap in
  let env := Scenario.world Scenario.fsNew Scenario.absInW (Ok Scenario.stdout) in
  let e := Scenario.modified ["/w/B.java"] in
  let s := Scenario.s0 in
  let N := Scenario.snapshotNew in
  let key := getProjectKey env in
  let i := InitSync gsm env s in
  let s' := (GetSyncDiff gsm env e s).1 in
  let d := (GetSyncDiff gsm env e s).2 in
  gsm env = Ok N ∧
  (i.2 = None ∧ cached i.1 key = Some N) ∧
  (calls (trace s') = S (calls (trace s)) →
   err d = None ∧ cached s' key = Some N).
Proof.
  intros gsm env e s N key i s' d.
  assert (Ha : gsm env = Ok N) by (vm_compute; reflexivity).
  exact (conj Ha (new_map_becomes_baseline gsm env e s N Ha)).
Defined.

(** ** What is handed to the copy step *)

(** X7.  In every state the program reaches with the mapping computation
    of this file, each path of a returned [toCopy] comes with exactly one
    destination. *)
Theorem toCopy_one_destination env e s m k dst :
  reachable getSyncMap s →
  toCopy (GetSyncDiff getSyncMap env e s).2 = Some m →
  m !! k = Some dst →
  ∃ x, dst = [x].
Proof.
  intros Hreach Hm Hk.
  destruct (GetSyncDiff getSyncMap env e s) as [s' d] eqn:Hrun.
  destruct (GetSyncDiff_anatomy _ _ _ _ _ _ Hrun)
    as (h1 & _ & _ & _ &
        [(_ & _ & Hc & _)|[(_ & _ & _ & ? & _ & ->)|
                           (N & HN & _ & _ & _ & ->)]]); [|done|].
  - pose proof (fast_path_return getSyncMap env e s m) as Hfast.
    rewrite Hrun in Hfast.
    destruct (Hfast Hm Hc) as (_ & _ & h' & Hloop & _).
    destruct (directLoop_values _ _ (heap s) _ _ _ _ _
                (heapRefresh_refl _ _) Hloop k dst Hk)
      as [Hempty|(v & Hv & _ & ->)]; [by rewrite lookup_empty in Hempty|].
    unfold mapIndex in Hv.
    destruct (syncLists s !! getProjectKey env) as [l|]; [|done].
    simpl in Hv. destruct (heap s !! l) as [mm|] eqn:Hl; [|done].
    by eapply reachable_oneDest.
  - simpl in Hm. injection Hm as <-.
    apply syncMapDiff_spec in Hk as (v & Hv & -> & _).
    by eapply getSyncMap_oneDest.
Qed.

Lemma toCopy_one_destination_witness :
  let env := Scenario.world Scenario.fsNew Scenario.absInW (Ok Scenario.stdout) in
  let e := Scenario.modified ["A.txt"] in
  let s := (InitSync getSyncMap env initState).1 in
  let m : gmap string (list string) := {["/w/A.txt" := ["/c/A.txt"]]} in
  reachable getSyncMap s ∧
  toCopy (GetSyncDiff getSyncMap env e s).2 = Some m ∧
  m !! "/w/A.txt" = Some ["/c/A.txt"] ∧
  ∃ x, ["/c/A.txt"] = [x].
Proof.
  intros env e s m.
  assert (Ha : reachable getSyncMap s)
    by (apply reach_InitSync, reach_init).
  assert (Hb : toCopy (GetSyncDiff getSyncMap env e s).2 = Some m)
    by (vm_compute; reflexivity).
  assert (Hc : m !! "/w/A.txt" = Some ["/c/A.txt"])
    by (vm_compute; reflexivity).
  exact (conj Ha (conj Hb (conj Hc
    (toCopy_one_destination env e s m "/w/A.txt" ["/c/A.txt"] Ha Hb Hc)))).
Defined.

(** ** Snapshots are never dropped *)

(** X8.  On a well-formed store, a project key that has a snapshot still
    has one after [InitSync] and after [GetSyncDiff], whatever the
    project key of the call and however the call ends. *)
Theorem snapshots_never_dropped gsm env e s key' :
  wfState s →
  is_Some (cached s key') →
  is_Some (cached (InitSync gsm env s).1 key') ∧
  is_Some (cached (GetSyncDiff gsm env e s).1 key').
Proof.
  intros Hwf [m Hm].
  assert (∀ h1 N,
    heapRefresh (syncLists s !! getProjectKey env) (heap s) h1 →
    is_Some (cached (storeNew (getProjectKey env) N (setHeap h1 s)) key'))
    as Hstore.
  { intros h1 N Hh1.
    destruct (decide (getProjectKey env = key')) as [<-|Hne].
    - rewrite cached_storeNew. by eexists.
    - unfold cached, storeNew in *. simpl. rewrite lookup_insert_ne by done.
      destruct (syncLists s !! key') as [l|] eqn:Hl; [|done]. simpl in *.
      rewrite lookup_insert_ne.
      + apply elem_of_dom. rewrite (heapRefresh_dom _ _ _ Hh1).
        apply elem_of_dom. by eexists.
      + intros Heq. apply (is_fresh (dom h1)). rewrite Heq.
        rewrite (heapRefresh_dom _ _ _ Hh1). apply elem_of_dom.
        by eexists. }
  split.
  - unfold InitSync. destruct (gsm env) as [N|]; simpl;
      [|exists m; exact Hm].
    specialize (Hstore (heap s) N (heapRefresh_refl _ _)).
    by rewrite setHeap_same in Hstore.
  - destruct (GetSyncDiff gsm env e s) as [s' d] eqn:Hrun. simpl.
    destruct (GetSyncDiff_anatomy _ _ _ _ _ _ Hrun)
      as (h1 & Hh1 & _ & _ &
          [(Hs & Hh & _)|[(Hs & Hh & _)|(N & _ & _ & Hs & Hh & _)]]).
    + unfold cached in *. rewrite Hs, Hh.
      destruct (syncLists s !! key') as [l|]; [|done]. simpl in *.
      apply elem_of_dom. rewrite (heapRefresh_dom _ _ _ Hh1).
      apply elem_of_dom. by eexists.
    + unfold cached in *. rewrite Hs, Hh.
      destruct (syncLists s !! key') as [l|]; [|done]. simpl in *.
      apply elem_of_dom. rewrite (heapRefresh_dom _ _ _ Hh1).
      apply elem_of_dom. by eexists.
    + specialize (Hstore h1 N Hh1). unfold cached, storeNew in *.
      simpl in Hstore. by rewrite Hs, Hh.
Qed.

Lemma snapshots_never_dropped_witness :
  let gsm := getSyncMap in
  let env := Scenario.world Scenario.fsNew Scenario.absInW (Ok Scenario.stdout) in
  let e := Scenario.modified ["/w/B.java"] in
  let s := Scenario2.s0both in
  let key' := getProjectKey Scenario2.otherWorld in
  wfState s ∧ is_Some (cached s key') ∧
  is_Some (cached (InitSync gsm env s).1 key') ∧
  is_Some (cached (GetSyncDiff gsm env e s).1 key').
Proof.
  intros gsm env e s key'.
  assert (Ha : wfState s)
    by (apply (reachable_wf (λ _, Ok Scenario.baseline));
        apply reach_InitSync, reach_InitSync, reach_init).
  assert (Hb : is_Some (cached s key')) by (vm_compute; by eexists).
  exact (conj Ha (conj Hb (snapshots_never_dropped gsm env e s key' Ha Hb))).
Defined.

(** ** Edge events *)

(** An event that names no path at all is answered on the fast
    path, whatever the store holds: an empty [toCopy] that is not nil, no
    error, and the state as it was. *)
Theorem empty_event gsm env s :
  GetSyncDiff gsm env {| Added := []; Modified := []; Deleted := [] |} s =
    (s, {| toCopy := Some ∅; toDelete := None; err := None |}).
Proof.
  unfold GetSyncDiff, directFastPath. simpl. by rewrite setHeap_same.
Qed.

(** X9.  [GetSyncDiff] returns the no-sync result, nil maps and no
    error, in two cases only: a modified path resolves to a build file,
    the paths before it having resolved to other files; or the event
    deletes a path, every modified path having resolved to a file that is
    not a build file. *)
Theorem noSync_origins gsm env e s :
  let d := (GetSyncDiff gsm env e s).2 in
  toCopy d = None → err d = None →
  (∃ pre f k post,
     Modified e = pre ++ f :: post ∧ toAbs env f = Ok k ∧
     k ∈ GetBuildDefinitions env ∧
     ∀ g, g ∈ pre → ∃ g', toAbs env g = Ok g' ∧ g' ∉ GetBuildDefinitions env) ∨
  (Deleted e ≠ [] ∧
   ∀ g, g ∈ Modified e →
        ∃ g', toAbs env g = Ok g' ∧ g' ∉ GetBuildDefinitions env).
Proof.
  intros d. subst d. unfold GetSyncDiff.
  destruct (buildFileGuard env _ _) eqn:Hguard; [done| |].
  { intros _ _. left. by apply buildFileGuard_first_hit. }
  destruct (Deleted e) as [|x l] eqn:Hdel; simpl.
  2:{ intros _ _. right. split; [done|].
      by apply buildFileGuard_pass_inv. }
  unfold directFastPath. rewrite Hdel. simpl.
  assert (∀ s1 r, toCopy (fullRecompute gsm env s1 r).2 = None →
                  err (fullRecompute gsm env s1 r).2 = None → False)
    as Hfull.
  { intros s1 r. unfold fullRecompute. by destruct (gsm env). }
  destruct (length (Added e) =? 0)%nat;
    [|intros ? ?; exfalso; by eapply Hfull].
  destruct (directLoop env _ _ _ _); [done|].
  destruct (_ =? _)%nat; [done|].
  intros ? ?; exfalso; by eapply Hfull.
Qed.

Lemma noSync_origins_witness :
  let gsm := getSyncMap in
  let env := Scenario.world Scenario.fsNew Scenario.absInW (Ok Scenario.stdout) in
  let e := {| Added := []; Modified := ["A.txt"]; Deleted := ["/w/B.java"] |} in
  let s := Scenario.s0 in
  let d := (GetSyncDiff gsm env e s).2 in
  toCopy d = None ∧ err d = None ∧
  ((∃ pre f k post,
      Modified e = pre ++ f :: post ∧ toAbs env f = Ok k ∧
      k ∈ GetBuildDefinitions env ∧
      ∀ g, g ∈ pre → ∃ g', toAbs env g = Ok g' ∧ g' ∉ GetBuildDefinitions env) ∨
   (Deleted e ≠ [] ∧
    ∀ g, g ∈ Modified e →
         ∃ g', toAbs env g = Ok g' ∧ g' ∉ GetBuildDefinitions env)).
Proof.
  intros gsm env e s d.
  assert (Ha : toCopy d = None) by (vm_compute; reflexivity).
  assert (Hb : err d = None) by (vm_compute; reflexivity).
  exact (conj Ha (conj Hb (noSync_origins gsm env e s Ha Hb))).
Defined.

(** ** Recomputing on the current baseline *)

(** X10.  With the mapping computation of this file: when the snapshot of
    the project key is the map the mapping computation yields in the
    present world, a call that goes through the recomputation returns an
    empty [toCopy] and leaves that map as the snapshot.  So it is right
    after [InitSync] in an unchanged world. *)
Theorem recompute_on_current_baseline env e s N :
  let key := getProjectKey env in
  let s' := (GetSyncDiff getSyncMap env e s).1 in
  let d := (GetSyncDiff getSyncMap env e s).2 in
  getSyncMap env = Ok N →
  cached s key = Some N →
  calls (trace s') = S (calls (trace s)) →
  toCopy d = Some ∅ ∧ err d = None ∧ cached s' key = Some N.
Proof.
  intros key s' d HN Hcached Hcalls. subst s' d key.
  destruct (GetSyncDiff getSyncMap env e s) as [s' d] eqn:Hrun.
  simpl in *.
  destruct (GetSyncDiff_anatomy _ _ _ _ _ _ Hrun)
    as (h1 & _ & _ & Hloop &
        [(_ & _ & ? & _)|[(_ & _ & _ & ? & ? & _)|
                          (N' & HN' & _ & Hs & Hh & ->)]]);
    [lia|congruence|].
  assert (N' = N) as -> by congruence.
  unfold cached in Hcached.
  destruct (syncLists s !! getProjectKey env) as [l|] eqn:Hr; [|done].
  simpl in Hcached.
  assert (h1 = heap s) as ->.
  { destruct Hloop as [->| ->]; [done|]. apply directLoop_noop.
    intros l' m [= <-]. rewrite Hcached. intros [= <-].
    by apply getSyncMap_statConsistent. }
  simpl. split_and!; [|done|].
  - rewrite Hh. unfold mapContents. simpl. rewrite lookup_insert_ne.
    + rewrite Hcached. simpl. by rewrite syncMapDiff_same.
    + intros Heq. apply (is_fresh (dom (heap s))). rewrite Heq.
      apply elem_of_dom. by eexists.
  - unfold cached. rewrite Hs, lookup_insert_eq. simpl.
    by rewrite Hh, lookup_insert_eq.
Qed.

Lemma recompute_on_current_baseline_witness :
  let env := Scenario.world Scenario.fsNew Scenario.absInW (Ok Scenario.stdout) in
  let e := Scenario.modified ["/w/B.java"] in
  let s := (InitSync getSyncMap env Scenario.s0).1 in
  let N := Scenario.snapshotNew in
  let key := getProjectKey env in
  let s' := (GetSyncDiff getSyncMap env e s).1 in
  let d := (GetSyncDiff getSyncMap env e s).2 in
  getSyncMap env = Ok N ∧ cached s key = Some N ∧
  calls (trace s') = S (calls (trace s)) ∧
  toCopy d = Some ∅ ∧ err d = None ∧ cached s' key = Some N.
Proof.
  intros env e s N key s' d.
  assert (Ha : getSyncMap env = Ok N) by (vm_compute; reflexivity).
  assert (Hb : cached s key = Some N) by (vm_compute; reflexivity).
  assert (Hc : calls (trace s') = S (calls (trace s)))
    by (vm_compute; reflexivity).
  exact (conj Ha (conj Hb (conj Hc
    (recompute_on_current_baseline env e s N Ha Hb Hc)))).
Defined.

(** * Further properties of the adapter *)

(** ** Which payload the search returns *)

Lemma dotStarBrace_greedy s g :
  Regexp.dotStarBrace s = Some g →
  ∃ post, s = g ++ post ∧ noBraceOnLine post.
Proof.
  revert g. induction s as [|b rest IH]; intros g; simpl; [done|].
  destruct (Byte.eqb b LF) eqn:HLF; [done|].
  destruct (Regexp.dotStarBrace rest) as [g'|] eqn:Hrest.
  - intros [= <-]. destruct (IH g' eq_refl) as (post & -> & Hpost).
    by exists post.
  - destruct (Byte.eqb b x7d) eqn:Hbrace; [|done].
    intros [= <-]. exists rest. split; [done|].
    intros post1 post2 ->.
    destruct (decide (LF ∈ post1)) as [|Hno]; [done|].
    destruct (proj2 (dotStarBrace_is_Some (post1 ++ x7d :: post2)))
      as [? ?]; [by exists post1, post2|congruence].
Qed.

Lemma newlineGroup_greedy s g :
  Regexp.newlineGroup s = Some g →
  ∃ post, s = [LF] ++ g ++ post ∧ noBraceOnLine post.
Proof.
  unfold Regexp.newlineGroup.
  destruct (Regexp.literal [LF] s) as [s1|] eqn:H1; obind; [|done].
  apply literal_Some in H1 as ->.
  destruct (Regexp.literal [x7b] s1) as [s2|] eqn:H2; obind; [|done].
  apply literal_Some in H2 as ->.
  destruct (Regexp.dotStarBrace s2) as [g'|] eqn:H3; obind; [|done].
  intros [= <-]. destruct (dotStarBrace_greedy _ _ H3) as (post & -> & ?).
  by exists post.
Qed.

Lemma crNewlineGroup_greedy s g :
  Regexp.crNewlineGroup s = Some g →
  ∃ cr post, s = cr ++ [LF] ++ g ++ post ∧ (cr = [] ∨ cr = [CR]) ∧
             noBraceOnLine post.
Proof.
  unfold Regexp.crNewlineGroup.
  destruct (Regexp.literal [CR] s) as [s1|] eqn:H1; obind.
  - apply literal_Some in H1 as ->.
    destruct (Regexp.newlineGroup s1) as [g'|] eqn:Hg.
    + intros [= <-]. destruct (newlineGroup_greedy _ _ Hg) as (post & -> & ?).
      exists [CR], post. split_and!; [done|by right|done].
    + intros (post & Heq & ?)%newlineGroup_greedy. done.
  - intros (post & -> & ?)%newlineGroup_greedy.
    exists [], post. split_and!; [done|by left|done].
Qed.

Lemma matchHere_greedy s g :
  Regexp.matchHere s = Some g →
  ∃ version cr post,
    s = bytesOf "BEGIN JIB JSON" ++ version ++ cr ++ [LF] ++ g ++ post ∧
    (version = [] ∨ version = bytesOf ": SYNCMAP/1") ∧
    (cr = [] ∨ cr = [CR]) ∧ noBraceOnLine post.
Proof.
  unfold Regexp.matchHere.
  destruct (Regexp.literal (bytesOf "BEGIN JIB JSON") s) as [s1|] eqn:H1;
    obind; [|done].
  apply literal_Some in H1 as ->.
  destruct (Regexp.literal (bytesOf ": SYNCMAP/1") s1) as [s2|] eqn:H2;
    obind.
  - apply literal_Some in H2 as ->.
    destruct (Regexp.crNewlineGroup s2) as [g'|] eqn:Hg.
    + intros [= <-].
      destruct (crNewlineGroup_greedy _ _ Hg) as (cr & post & -> & ? & ?).
      exists (bytesOf ": SYNCMAP/1"), cr, post.
      split_and!; [done|by right|done|done].
    + intros (cr & post & Heq & [-> | ->] & ?)%crNewlineGroup_greedy; done.
  - intros (cr & post & -> & ? & ?)%crNewlineGroup_greedy.
    exists [], cr, post. split_and!; [done|by left|done|done].
Qed.

Lemma matchHere_payloadAt s : is_Some (Regexp.matchHere s) ↔ payloadAt s.
Proof. apply matchHere_is_Some. Qed.

(** X11.  What [FindSubmatch] returns is the payload of the leftmost
    place of the output where the marker is followed by a payload line:
    the bytes from the opening brace to the last closing brace of that
    line. *)
Theorem FindSubmatch_leftmost_greedy stdout g :
  Regexp.FindSubmatch stdout = Some g →
  ∃ pre version cr body post,
    stdout = pre ++ bytesOf "BEGIN JIB JSON" ++ version ++ cr ++
             [LF] ++ g ++ post ∧
    (version = [] ∨ version = bytesOf ": SYNCMAP/1") ∧
    (cr = [] ∨ cr = [CR]) ∧
    g = [x7b] ++ body ++ [x7d] ∧ (LF ∉ body) ∧
    noBraceOnLine post ∧
    ∀ i, i < length pre → ¬ payloadAt (drop i stdout).
Proof.
  intros Hfind.
  destruct (FindSubmatch_shape _ _ Hfind) as (body & Hg & Hbody).
  cut (∃ pre version cr post,
    stdout = pre ++ bytesOf "BEGIN JIB JSON" ++ version ++ cr ++
             [LF] ++ g ++ post ∧
    (version = [] ∨ version = bytesOf ": SYNCMAP/1") ∧
    (cr = [] ∨ cr = [CR]) ∧ noBraceOnLine post ∧
    ∀ i, i < length pre → ¬ payloadAt (drop i stdout)).
  { intros (pre & version & cr & post & ? & ? & ? & ? & ?).
    by exists pre, version, cr, body, post. }
  clear Hg Hbody body. revert Hfind.
  induction stdout as [|b rest IH]; cbn [Regexp.FindSubmatch].
  - destruct (Regexp.matchHere []) eqn:Hhere; [|done].
    intros [= <-].
    destruct (matchHere_greedy _ _ Hhere) as (version & cr & post & Heq & ? & ? & ?).
    exists [], version, cr, post. split_and!; [done..|].
    intros i Hi. simpl in Hi. lia.
  - destruct (Regexp.matchHere (b :: rest)) eqn:Hhere.
    + intros [= <-].
      destruct (matchHere_greedy _ _ Hhere)
        as (version & cr & post & Heq & ? & ? & ?).
      exists [], version, cr, post. split_and!; [done..|].
      intros i Hi. simpl in Hi. lia.
    + intros (pre & version & cr & post & -> & ? & ? & ? & Hleft)%IH.
      exists (b :: pre), version, cr, post. split_and!; [done..|].
      intros [|i] Hi.
      * rewrite drop_0. intros [? ?]%matchHere_payloadAt. congruence.
      * simpl. apply Hleft. simpl in Hi. lia.
Qed.

Lemma FindSubmatch_leftmost_greedy_witness :
  let stdout :=
    bytesOf "BEGIN JIB JSON {x}" ++ [LF] ++
    bytesOf "BEGIN JIB JSON" ++ [LF] ++ bytesOf "{a}b}c" ++ [LF] ++
    bytesOf "{d}" in
  let g := bytesOf "{a}b}" in
  Regexp.FindSubmatch stdout = Some g ∧
  ∃ pre version cr body post,
    stdout = pre ++ bytesOf "BEGIN JIB JSON" ++ version ++ cr ++
             [LF] ++ g ++ post ∧
    (version = [] ∨ version = bytesOf ": SYNCMAP/1") ∧
    (cr = [] ∨ cr = [CR]) ∧
    g = [x7b] ++ body ++ [x7d] ∧ (LF ∉ body) ∧
    noBraceOnLine post ∧
    ∀ i, i < length pre → ¬ payloadAt (drop i stdout).
Proof.
  intros stdout g.
  assert (Ha : Regexp.FindSubmatch stdout = Some g)
    by (vm_compute; reflexivity).
  exact (conj Ha (FindSubmatch_leftmost_greedy stdout g Ha)).
Defined.

(** ** The escape of line 197 *)

Lemma bytesReplace_cons b s old new :
  bytesReplace (b :: s) old new =
    (if Byte.eqb b old then new else [b]) ++ bytesReplace s old new.
Proof. done. Qed.

Lemma escape_keeps_line s :
  LF ∉ s → LF ∉ bytesReplace s x5c [x5c; x5c].
Proof.
  induction s as [|b s IH]; [done|].
  intros [Hb Hs]%not_elem_of_cons. rewrite bytesReplace_cons.
  rewrite elem_of_app. intros [Hin|Hin]; [|by apply IH].
  destruct (Byte.eqb b x5c) eqn:Heq.
  - apply elem_of_cons in Hin as [?|Hin]; [done|].
    apply list_elem_of_singleton in Hin. done.
  - apply list_elem_of_singleton in Hin. done.
Qed.

(** X12.  Doubling the backslashes leaves a payload without backslash as
    it is, keeps two different payloads different, adds one byte for
    each backslash, and keeps a payload that is on one line on one
    line. *)
Theorem escape_backslashes_properties :
  let escape := λ s, bytesReplace s x5c [x5c; x5c] in
  (∀ s, x5c ∉ s → escape s = s) ∧
  (∀ s s', escape s = escape s' → s = s') ∧
  (∀ s, length (escape s) = length s + length (filter (λ b, b = x5c) s)) ∧
  (∀ s, LF ∉ s → LF ∉ escape s).
Proof.
  intros escape. subst escape. split_and!.
  - induction s as [|b s IH]; [done|].
    intros [Hb Hs]%not_elem_of_cons. rewrite bytesReplace_cons.
    destruct (Byte.eqb b x5c) eqn:Heq;
      [apply byte_eqb_eq in Heq; congruence|].
    simpl. by rewrite IH.
  - induction s as [|b s IH]; intros [|b' s']; rewrite ?bytesReplace_cons.
    + done.
    + destruct (Byte.eqb b' x5c); done.
    + destruct (Byte.eqb b x5c); done.
    + destruct (Byte.eqb b x5c) eqn:Hb, (Byte.eqb b' x5c) eqn:Hb';
        simpl; intros [= ]; subst.
      * apply byte_eqb_eq in Hb as ->, Hb' as ->. f_equal. by apply IH.
      * by rewrite byte_eqb_refl in Hb'.
      * by rewrite byte_eqb_refl in Hb.
      * f_equal. by apply IH.
  - induction s as [|b s IH]; [done|]. rewrite bytesReplace_cons.
    rewrite length_app, IH, filter_cons.
    destruct (Byte.eqb b x5c) eqn:Hb.
    + apply byte_eqb_eq in Hb as ->. rewrite decide_True by done.
      simpl. lia.
    + apply byte_eqb_neq in Hb. rewrite decide_False by done. simpl. lia.
  - apply escape_keeps_line.
Qed.

Lemma escape_backslashes_properties_witness :
  let escape := λ s, bytesReplace s x5c [x5c; x5c] in
  escape (bytesOf "{/w/A.txt}") = bytesOf "{/w/A.txt}" ∧
  (escape (bytesOf "C:\w") = escape (bytesOf "C:\w") →
   bytesOf "C:\w" = bytesOf "C:\w") ∧
  LF ∉ escape (bytesOf "C:\w").
Proof.
  intros escape.
  destruct escape_backslashes_properties as (Hid & Hinj & _ & Hline).
  split_and!.
  - apply Hid. apply (bool_decide_unpack _). by vm_compute.
  - apply Hinj.
  - apply Hline. apply (bool_decide_unpack _). by vm_compute.
Defined.

(** ** What the adapter asks of its collaborators *)

Lemma addEntries_ext env env' isDirect entries :
  (∀ f, Stat env' f = Stat env f) →
  ∀ sm, addEntries env' isDirect entries sm =
        addEntries env isDirect entries sm.
Proof.
  intros Hstat. induction entries as [|de rest IH]; intros sm; simpl; [done|].
  rewrite Hstat. by destruct (Stat env _).
Qed.

(** X13.  [getSyncMapFromSystem] hands to [json.Unmarshal] nothing but
    one line between braces: two worlds with the same subprocess output
    and the same files, whose [json.Unmarshal] agree on every such line,
    give the same result. *)
Theorem unmarshal_only_braced_line env env' cmd :
  RunCmdOut env' cmd = RunCmdOut env cmd →
  (∀ f, Stat env' f = Stat env f) →
  (∀ body, LF ∉ body →
     jsonUnmarshal env' ([x7b] ++ body ++ [x7d]) =
     jsonUnmarshal env ([x7b] ++ body ++ [x7d])) →
  getSyncMapFromSystem env' cmd = getSyncMapFromSystem env cmd.
Proof.
  intros Hout Hstat Hjson. unfold getSyncMapFromSystem. rewrite Hout.
  destruct (RunCmdOut env cmd) as [stdout|]; [|done].
  destruct (Regexp.FindSubmatch stdout) as [g|] eqn:Hfind; [|done].
  destruct (FindSubmatch_shape _ _ Hfind) as (body & -> & Hbody).
  assert (bytesReplace ([x7b] ++ body ++ [x7d]) x5c [x5c; x5c] =
          [x7b] ++ bytesReplace body x5c [x5c; x5c] ++ [x7d]) as ->.
  { unfold bytesReplace. rewrite !bind_app. done. }
  rewrite Hjson by (by apply escape_keeps_line).
  destruct (jsonUnmarshal env _) as [jsm|]; [|done].
  rewrite !(addEntries_ext env env') by done.
  destruct (addEntries env true (Direct jsm) ∅); [|done].
  by rewrite !(addEntries_ext env env').
Qed.

Lemma unmarshal_only_braced_line_witness :
  let env := Scenario.world Scenario.fsNew Scenario.absInW (Ok Scenario.stdout) in
  let env' := Scenario2.lenientJson in
  let cmd := ["mvn"; "jib:_skaffold-sync-map"] in
  jsonUnmarshal env' [] ≠ jsonUnmarshal env [] ∧
  getSyncMapFromSystem env' cmd = getSyncMapFromSystem env cmd.
Proof.
  intros env env' cmd. split; [discriminate|].
  apply (unmarshal_only_braced_line env env' cmd); reflexivity.
Defined.

(** ** A source listed more than once *)

Lemma addEntries_stat_ok env isDirect entries sm sm' :
  addEntries env isDirect entries sm = Ok sm' →
  ∀ de, de ∈ entries → ∃ t, Stat env (JSONSyncEntry.Src de) = Ok t.
Proof.
  intros Hok de Hde.
  destruct (Stat env (JSONSyncEntry.Src de)) as [t|err] eqn:Hstat;
    [by eexists|].
  destruct (proj2 (addEntries_Err env isDirect entries sm)) as [? ?];
    [|congruence].
  exists (JSONSyncEntry.Src de), err. split; [|done].
  apply list_elem_of_fmap. by exists de.
Qed.

Lemma addEntries_last env isDirect l1 de l2 :
  ∀ sm sm' t,
    addEntries env isDirect (l1 ++ de :: l2) sm = Ok sm' →
    JSONSyncEntry.Src de ∉ JSONSyncEntry.Src <$> l2 →
    Stat env (JSONSyncEntry.Src de) = Ok t →
    sm' !! JSONSyncEntry.Src de =
      Some {| Dest := [JSONSyncEntry.Dest de]; FileTime := t;
              IsDirect := isDirect |}.
Proof.
  induction l1 as [|x l1 IH]; intros sm sm' t; simpl.
  - intros Hok Hlast Hstat. rewrite Hstat in Hok.
    destruct (addEntries_Ok _ _ _ _ _ Hok) as (_ & Hout & _).
    by rewrite (Hout _ Hlast), lookup_insert_eq.
  - destruct (Stat env (JSONSyncEntry.Src x)); [|done]. apply IH.
Qed.

Lemma addEntries_last_wins env entriesD entriesG sm1 sm :
  addEntries env true entriesD ∅ = Ok sm1 →
  addEntries env false entriesG sm1 = Ok sm →
  (∀ l1 ge l2,
     entriesG = l1 ++ ge :: l2 →
     JSONSyncEntry.Src ge ∉ JSONSyncEntry.Src <$> l2 →
     ∃ t, Stat env (JSONSyncEntry.Src ge) = Ok t ∧
          sm !! JSONSyncEntry.Src ge =
            Some {| Dest := [JSONSyncEntry.Dest ge]; FileTime := t;
                    IsDirect := false |}) ∧
  (∀ l1 de l2,
     entriesD = l1 ++ de :: l2 →
     JSONSyncEntry.Src de ∉ JSONSyncEntry.Src <$> l2 →
     JSONSyncEntry.Src de ∉ JSONSyncEntry.Src <$> entriesG →
     ∃ t, Stat env (JSONSyncEntry.Src de) = Ok t ∧
          sm !! JSONSyncEntry.Src de =
            Some {| Dest := [JSONSyncEntry.Dest de]; FileTime := t;
                    IsDirect := true |}).
Proof.
  intros H1 H2. split.
  - intros l1 ge l2 -> Hlast.
    destruct (addEntries_stat_ok _ _ _ _ _ H2 ge) as [t Ht].
    { apply elem_of_app. right. left. }
    exists t. split; [done|]. by eapply addEntries_last.
  - intros l1 de l2 -> Hlast Hgen.
    destruct (addEntries_stat_ok _ _ _ _ _ H1 de) as [t Ht].
    { apply elem_of_app. right. left. }
    exists t. split; [done|].
    destruct (addEntries_Ok _ _ _ _ _ H2) as (_ & Hout & _).
    rewrite (Hout _ Hgen). by eapply addEntries_last.
Qed.

(** X14.  When the payload lists a source more than once, the last
    listing decides: a source listed under [generated] has the
    destination of its last listing there and is not direct, whatever
    [direct] says of it; a source listed under [direct] only has the
    destination of its last listing there. *)
Theorem last_listing_wins env cmd stdout payload jsm sm :
  RunCmdOut env cmd = Ok stdout →
  Regexp.FindSubmatch stdout = Some payload →
  jsonUnmarshal env (bytesReplace payload x5c [x5c; x5c]) = Ok jsm →
  getSyncMapFromSystem env cmd = Ok sm →
  (∀ l1 ge l2,
     Generated jsm = l1 ++ ge :: l2 →
     JSONSyncEntry.Src ge ∉ JSONSyncEntry.Src <$> l2 →
     ∃ t, Stat env (JSONSyncEntry.Src ge) = Ok t ∧
          sm !! JSONSyncEntry.Src ge =
            Some {| Dest := [JSONSyncEntry.Dest ge]; FileTime := t;
                    IsDirect := false |}) ∧
  (∀ l1 de l2,
     Direct jsm = l1 ++ de :: l2 →
     JSONSyncEntry.Src de ∉ JSONSyncEntry.Src <$> l2 →
     JSONSyncEntry.Src de ∉ JSONSyncEntry.Src <$> Generated jsm →
     ∃ t, Stat env (JSONSyncEntry.Src de) = Ok t ∧
          sm !! JSONSyncEntry.Src de =
            Some {| Dest := [JSONSyncEntry.Dest de]; FileTime := t;
                    IsDirect := true |}).
Proof.
  intros Hout Hfind Hjson. unfold getSyncMapFromSystem.
  rewrite Hout, Hfind. cbv zeta. rewrite Hjson.
  destruct (addEntries env true (Direct jsm) ∅) as [sm1|] eqn:H1; [|done].
  intros H2. by eapply addEntries_last_wins.
Qed.

Lemma last_listing_wins_witness :
  let env := Scenario2.twiceWorld in
  let cmd := ["mvn"; "jib:_skaffold-sync-map"] in
  ∃ sm, getSyncMapFromSystem env cmd = Ok sm ∧
    sm !! "/w/A.txt" =
      Some {| Dest := ["/c/A.class"]; FileTime := 7%Z; IsDirect := false |} ∧
    sm !! "/w/C.txt" =
      Some {| Dest := ["/c/new/C.txt"]; FileTime := 3%Z; IsDirect := true |}.
Proof.
  intros env cmd.
  destruct (getSyncMapFromSystem env cmd) as [sm|] eqn:Hsm;
    [|vm_compute in Hsm; discriminate].
  exists sm. split; [done|].
  destruct (last_listing_wins env cmd Scenario.stdout Scenario.payload
              Scenario2.jsmTwice sm eq_refl
              ltac:(vm_compute; reflexivity) eq_refl Hsm) as [Hgen Hdir].
  split.
  - destruct (Hgen []
      {| JSONSyncEntry.Src := "/w/A.txt"; JSONSyncEntry.Dest := "/c/A.class" |}
      [] eq_refl) as (t & Ht & Hlook).
    { apply not_elem_of_nil. }
    simpl in Hlook. rewrite Hlook.
    vm_compute in Ht. by injection Ht as <-.
  - destruct (Hdir
      [ {| JSONSyncEntry.Src := "/w/A.txt"; JSONSyncEntry.Dest := "/c/old/A.txt" |};
        {| JSONSyncEntry.Src := "/w/C.txt"; JSONSyncEntry.Dest := "/c/C.txt" |} ]
      {| JSONSyncEntry.Src := "/w/C.txt"; JSONSyncEntry.Dest := "/c/new/C.txt" |}
      [] eq_refl) as (t & Ht & Hlook).
    { apply not_elem_of_nil. }
    { apply (bool_decide_unpack _). by vm_compute. }
    simpl in Hlook. rewrite Hlook.
    vm_compute in Ht. by injection Ht as <-.
Defined.

(** ** The outcomes of getSyncMap *)

Lemma getSyncMapFromSystem_error env cmd e1 :
  getSyncMapFromSystem env cmd = Err e1 →
  (∃ err, RunCmdOut env cmd = Err err ∧
          e1 = Wrap err "failed to get Jib sync map") ∨
  (∃ stdout, RunCmdOut env cmd = Ok stdout ∧
     ((¬ markerMatch stdout ∧ e1 = New "failed to get Jib Sync data") ∨
      (∃ payload err,
         Regexp.FindSubmatch stdout = Some payload ∧
         jsonUnmarshal env (bytesReplace payload x5c [x5c; x5c]) = Err err ∧
         e1 = WithStack err) ∨
      (∃ payload jsm src err,
         Regexp.FindSubmatch stdout = Some payload ∧
         jsonUnmarshal env (bytesReplace payload x5c [x5c; x5c]) = Ok jsm ∧
         src ∈ listedSources jsm ∧ Stat env src = Err err ∧
         e1 = Wrap err "could not obtain file mod time"))).
Proof.
  assert (∀ isDirect entries sm e0,
    addEntries env isDirect entries sm = Err e0 →
    ∃ src err, src ∈ JSONSyncEntry.Src <$> entries ∧ Stat env src = Err err ∧
               e0 = Wrap err "could not obtain file mod time") as Hadd.
  { intros isDirect entries. induction entries as [|de rest IH];
      intros sm e0; simpl; [done|].
    destruct (Stat env (JSONSyncEntry.Src de)) as [t|err] eqn:Hstat.
    - intros (src & err & ? & ?)%IH. exists src, err. split; [by right|done].
    - intros [= <-]. exists (JSONSyncEntry.Src de), err.
      split; [left|done]. }
  unfold getSyncMapFromSystem.
  destruct (RunCmdOut env cmd) as [stdout|err];
    [|intros [= <-]; left; by eexists].
  intros Hrun. right. exists stdout. split; [done|].
  destruct (Regexp.FindSubmatch stdout) as [payload|] eqn:Hfind.
  2:{ injection Hrun as <-. left. split; [|done]. by apply FindSubmatch_None. }
  cbv zeta in Hrun.
  destruct (jsonUnmarshal env _) as [jsm|err] eqn:Hjson.
  2:{ injection Hrun as <-. right. left. by exists payload, err. }
  right. right.
  destruct (addEntries env true (Direct jsm) ∅) as [sm1|err] eqn:H1.
  - apply Hadd in Hrun as (src & err & Hsrc & Herr & ->).
    exists payload, jsm, src, err. split_and!; [done..| |done|done].
    apply elem_of_app. by right.
  - injection Hrun as <-. apply Hadd in H1 as (src & err' & Hsrc & Herr & ->).
    exists payload, jsm, src, err'. split_and!; [done..| |done|done].
    apply elem_of_app. by left.
Qed.

(** X15.  [getSyncMap] runs the Maven command for a Maven project and the
    Gradle command for a Gradle project, and returns the map the adapter
    builds from that command's output.  Every error it returns carries
    one more stack than its cause, which is one of: the builder type
    could not be determined; the builder is neither Maven nor Gradle; the
    subprocess failed; the output holds no marker with a payload; the
    payload was rejected by [json.Unmarshal]; a listed source could not
    be stat'ed. *)
Theorem getSyncMap_outcomes env :
  (∀ sm, getSyncMap env = Ok sm ↔
     (DeterminePluginType env = Ok JibMaven ∧
      getSyncMapFromSystem env (getSyncMapCommandMaven env) = Ok sm) ∨
     (DeterminePluginType env = Ok JibGradle ∧
      getSyncMapFromSystem env (getSyncMapCommandGradle env) = Ok sm)) ∧
  (∀ e0, getSyncMap env = Err e0 →
     ∃ e1, e0 = WithStack e1 ∧
       (DeterminePluginType env = Err e1 ∨
        (DeterminePluginType env = Ok UnknownPlugin ∧
         e1 = Errorf "unable to determine Jib builder type for %s"
                (workspace env)) ∨
        ∃ cmd,
          getSyncMapCommand env = Ok cmd ∧
          ((∃ err, RunCmdOut env cmd = Err err ∧
                   e1 = Wrap err "failed to get Jib sync map") ∨
           (∃ stdout, RunCmdOut env cmd = Ok stdout ∧
              ((¬ markerMatch stdout ∧
                e1 = New "failed to get Jib Sync data") ∨
               (∃ payload err,
                  Regexp.FindSubmatch stdout = Some payload ∧
                  jsonUnmarshal env
                    (bytesReplace payload x5c [x5c; x5c]) = Err err ∧
                  e1 = WithStack err) ∨
               (∃ payload jsm src err,
                  Regexp.FindSubmatch stdout = Some payload ∧
                  jsonUnmarshal env
                    (bytesReplace payload x5c [x5c; x5c]) = Ok jsm ∧
                  src ∈ listedSources jsm ∧ Stat env src = Err err ∧
                  e1 = Wrap err "could not obtain file mod time")))))).
Proof.
  split.
  - intros sm. unfold getSyncMap, getSyncMapCommand.
    destruct (DeterminePluginType env) as [[]|]; simpl.
    + destruct (getSyncMapFromSystem env _); naive_solver.
    + destruct (getSyncMapFromSystem env _); naive_solver.
    + naive_solver.
    + naive_solver.
  - intros e0. unfold getSyncMap.
    destruct (getSyncMapCommand env) as [cmd|ec] eqn:Hcmd.
    + destruct (getSyncMapFromSystem env cmd) as [sm|e1] eqn:Hsys; [done|].
      intros [= <-]. exists e1. split; [done|]. right. right.
      exists cmd. split; [done|]. by apply getSyncMapFromSystem_error.
    + intros [= <-]. exists ec. split; [done|].
      unfold getSyncMapCommand in Hcmd.
      destruct (DeterminePluginType env) as [[]|]; simplify_eq; auto.
Qed.

Lemma getSyncMap_outcomes_witness :
  let env := Scenario2.unknownBuilder in
  let ok := Scenario.world Scenario.fsNew Scenario.absInW (Ok Scenario.stdout) in
  (DeterminePluginType ok = Ok JibMaven ∧
   getSyncMapFromSystem ok (getSyncMapCommandMaven ok) = Ok Scenario.snapshotNew) ∧
  ∃ e1, getSyncMap env = Err (WithStack e1) ∧
        DeterminePluginType env = Ok UnknownPlugin.
Proof.
  intros env ok. split.
  - destruct (getSyncMap_outcomes ok) as [Hok _].
    destruct (proj1 (Hok Scenario.snapshotNew)
                ltac:(vm_compute; reflexivity)) as [H|[H _]];
      [exact H|vm_compute in H; discriminate].
  - destruct (getSyncMap_outcomes env) as [_ Herr].
    destruct (getSyncMap env) as [sm|e0] eqn:Hrun;
      [vm_compute in Hrun; discriminate|].
    destruct (Herr e0 eq_refl) as (e1 & -> & _).
    exists e1. split; reflexivity.
Defined.

(** * Further properties of the fast path *)

(** ** The same path twice *)

Lemma size_list_to_set_le (l : list string) :
  size (list_to_set l : gset string) ≤ length l.
Proof.
  induction l as [|x l IH]; [vm_compute; lia|].
  change (list_to_set (x :: l) : gset string)
    with ({[x]} ∪ list_to_set l : gset string).
  rewrite size_union_alt. cbn [length].
  rewrite size_singleton.
  assert (size (list_to_set l ∖ {[x]} : gset string)
          ≤ size (list_to_set l : gset string))
    by (apply subseteq_size; set_solver).
  lia.
Qed.

Lemma size_list_to_set_NoDup (l : list string) :
  size (list_to_set l : gset string) = length l → NoDup l.
Proof.
  induction l as [|x l IH]; [constructor|].
  change (list_to_set (x :: l) : gset string)
    with ({[x]} ∪ list_to_set l : gset string). cbn [length].
  intros Hsize. pose proof (size_list_to_set_le l) as Hle.
  destruct (decide (x ∈ l)) as [Hin|Hnotin].
  - assert ({[x]} ∪ list_to_set l = (list_to_set l : gset string)) as Heq
      by set_solver.
    rewrite Heq in Hsize. lia.
  - rewrite size_union in Hsize by set_solver.
    rewrite size_singleton in Hsize.
    constructor; [done|]. apply IH. lia.
Qed.

(** X16.  The fast path never returns for an event in which two modified
    paths resolve to the same absolute path: when [GetSyncDiff] returns a
    [toCopy] without invoking the mapping computation, the resolved
    modified paths are pairwise distinct and are exactly the keys of
    [toCopy]. *)
Theorem fast_path_distinct_paths gsm env e s m :
  let s' := (GetSyncDiff gsm env e s).1 in
  let d := (GetSyncDiff gsm env e s).2 in
  toCopy d = Some m →
  calls (trace s') = calls (trace s) →
  NoDup (absPaths env (Modified e)) ∧
  dom m = list_to_set (absPaths env (Modified e)) ∧
  length (absPaths env (Modified e)) = length (Modified e).
Proof.
  intros s' d Hm Hcalls.
  destruct (fast_path_return gsm env e s m Hm Hcalls)
    as (_ & _ & h' & Hloop & Hsize & _).
  set (r := syncLists s !! getProjectKey env) in *.
  destruct (directLoop_size env r (heap s) (Modified e) (heap s) ∅ h' m
              (heapRefresh_refl _ _) Hloop) as [_ Hall].
  rewrite map_size_empty in Hall. specialize (Hall Hsize).
  destruct (directLoop_all_direct env r (heap s) (Modified e) (heap s) ∅
              (heapRefresh_refl _ _) Hall)
    as (h'' & m'' & Hloop' & Hdom & _).
  rewrite Hloop in Hloop'. injection Hloop' as <- <-.
  rewrite dom_empty_L, (left_id_L ∅ (∪)) in Hdom.
  assert (length (absPaths env (Modified e)) = length (Modified e)) as Hlen.
  { apply absPaths_length. intros f Hf.
    destruct (Hall f Hf) as (k & _ & _ & ? & _). by exists k. }
  split_and!; [|done|done].
  apply size_list_to_set_NoDup. by rewrite <- Hdom, size_dom, Hlen.
Qed.

Lemma fast_path_distinct_paths_witness :
  let gsm := getSyncMap in
  let env := Scenario.world Scenario.fsNew Scenario.absInW (Ok Scenario.stdout) in
  let e := Scenario.modified ["A.txt"] in
  let s := Scenario.s0 in
  let m : gmap string (list string) := {["/w/A.txt" := ["/c/A.txt"]]} in
  let s' := (GetSyncDiff gsm env e s).1 in
  let d := (GetSyncDiff gsm env e s).2 in
  toCopy d = Some m ∧
  calls (trace s') = calls (trace s) ∧
  NoDup (absPaths env (Modified e)) ∧
  dom m = list_to_set (absPaths env (Modified e)) ∧
  length (absPaths env (Modified e)) = length (Modified e).
Proof.
  intros gsm env e s m s' d.
  assert (Ha : toCopy d = Some m) by (vm_compute; reflexivity).
  assert (Hb : calls (trace s') = calls (trace s))
    by (vm_compute; reflexivity).
  exact (conj Ha (conj Hb (fast_path_distinct_paths gsm env e s m Ha Hb))).
Defined.

(** ** Direct files listed before a file that is not direct *)

(** The loop stops at the first path that is not a direct entry; the
    paths before it are recorded. *)
Lemma directLoop_break env r h0 pre f k post :
  ∀ h matches,
    heapRefresh r h0 h →
    (∀ g, g ∈ pre → ∃ kg v t,
        toAbs env g = Ok kg ∧ mapIndex h0 r kg = Some v ∧
        IsDirect v = true ∧ Stat env kg = Ok t) →
    toAbs env f = Ok k →
    (∀ v, mapIndex h0 r k = Some v → IsDirect v = false) →
    ∃ h' matches',
      directLoop env h r matches (pre ++ f :: post) = LoopEnd h' matches' ∧
      ∀ kg, kg ∈ absPaths env pre → is_Some (matches' !! kg).
Proof.
  induction pre as [|g pre IH]; intros h matches Hh Hpre Hf Hk; simpl.
  - rewrite Hf. exists h, matches.
    pose proof (heapRefresh_mapIndex r h0 h k Hh) as Hv.
    split; [|intros kg Hkg; inversion Hkg].
    destruct (mapIndex h r k) as [v'|]; simpl; [|done].
    inversion Hv as [v ? (_ & Hi & _) Hv0|]; subst. symmetry in Hv0.
    by rewrite Hi, (Hk v Hv0).
  - destruct (Hpre g) as (kg & v & t & Hg & Hidx & Hdir & Hstat); [left|].
    rewrite Hg.
    pose proof (heapRefresh_mapIndex r h0 h kg Hh) as Hv.
    rewrite Hidx in Hv. inversion Hv as [? v' (Hd & Hi & _) Heq1 Heq2|].
    symmetry in Heq2. rewrite Hi, Hdir. simpl. rewrite Hstat.
    destruct (IH
      (mapAssign h r kg
         {| Dest := Dest v'; FileTime := t; IsDirect := true |})
      (<[kg := Dest v']> matches))
      as (h' & matches' & Hloop & Hin); [|by intros; apply Hpre; right|done..|].
    { eapply heapRefresh_trans; [exact Hh|].
      replace true with (IsDirect v') at 1 by congruence.
      apply heapRefresh_assign; [done | congruence]. }
    exists h', matches'. split; [done|].
    intros k0 [->|Hk0]%elem_of_cons; [|by apply Hin].
    eapply directLoop_keeps_keys; [exact Hloop|].
    rewrite lookup_insert_eq. by eexists.
Qed.

(** X17.  With the mapping computation of this file, for an event
    without added or deleted paths: the direct files listed in
    [Modified] before the first path that is not a direct entry of the
    cached map have had their cached time refreshed by the fast path
    when the map is recomputed, and none of them is in the returned
    [toCopy]. *)
Theorem direct_files_before_fallback_not_copied env e s pre f k post N :
  let d := (GetSyncDiff getSyncMap env e s).2 in
  let r := syncLists s !! getProjectKey env in
  wfState s →
  Added e = [] → Deleted e = [] →
  Modified e = pre ++ f :: post →
  (∀ g, g ∈ Modified e →
        ∃ kg, toAbs env g = Ok kg ∧ kg ∉ GetBuildDefinitions env) →
  (∀ g, g ∈ pre → ∃ kg v t,
      toAbs env g = Ok kg ∧ mapIndex (heap s) r kg = Some v ∧
      IsDirect v = true ∧ Stat env kg = Ok t) →
  toAbs env f = Ok k →
  (∀ v, mapIndex (heap s) r k = Some v → IsDirect v = false) →
  getSyncMap env = Ok N →
  ∃ m, toCopy d = Some m ∧
       ∀ kg, kg ∈ absPaths env pre → m !! kg = None.
Proof.
  intros d r Hwf Hadd Hdel Hsplit Hguard Hpre Hf Hk HN. subst d.
  unfold GetSyncDiff. rewrite (buildFileGuard_pass _ _ _ Hguard).
  rewrite Hdel. simpl. unfold directFastPath. rewrite Hadd, Hdel. simpl.
  fold r.
  destruct (directLoop_break env r (heap s) pre f k post (heap s) ∅
              (heapRefresh_refl _ _) Hpre Hf Hk)
    as (h' & m' & Hloop & Hin).
  rewrite <- Hsplit in Hloop. rewrite Hloop.
  pose proof (directLoop_refresh env r (Modified e) (heap s) ∅) as Hh'.
  rewrite Hloop in Hh'. simpl in Hh'.
  destruct (directLoop_size env r (heap s) (Modified e) (heap s) ∅ h' m'
              (heapRefresh_refl _ _) Hloop) as [_ Hall].
  destruct (size m' =? length (Modified e))%nat eqn:Hsize.
  { exfalso. apply Nat.eqb_eq in Hsize. rewrite map_size_empty in Hall.
    destruct (Hall Hsize f) as (k' & v & _ & Hf' & Hv & Hdir & _).
    { rewrite Hsplit. apply elem_of_app. right. left. }
    assert (k' = k) as -> by congruence.
    rewrite (Hk v Hv) in Hdir. done. }
  unfold fullRecompute. rewrite HN. simpl. eexists. split; [done|].
  intros kg Hkg. rewrite syncMapDiff_lookup.
  destruct (N !! kg) as [v|] eqn:HNk; simpl; [|done].
  unfold diffEntry. rewrite old_map_kept, mapContents_lookup.
  2:{ intros l Hl. apply elem_of_dom. rewrite (heapRefresh_dom _ _ _ Hh').
      apply elem_of_dom. destruct Hwf as [Hd _]. by eapply Hd. }
  destruct (directLoop_recorded env r (Modified e) (heap s) ∅ h' m')
    with (k := kg) as (c & Hc & Hstat); [|done|by apply Hin|].
  { intros k' [? Hk']. by rewrite lookup_empty in Hk'. }
  rewrite Hc.
  pose proof (getSyncMap_statConsistent env N HN kg v HNk) as HstatN.
  rewrite Hstat in HstatN. injection HstatN as ->.
  by rewrite bool_decide_eq_false_2 by (intros H; by apply H).
Qed.

Lemma direct_files_before_fallback_not_copied_witness :
  let env := Scenario.world Scenario.fsNew Scenario.absInW (Ok Scenario.stdout) in
  let e := Scenario.modified ["/w/A.txt"; "/w/B.java"] in
  let s := Scenario.s0 in
  let d := (GetSyncDiff getSyncMap env e s).2 in
  ∃ m, toCopy d = Some m ∧
       ∀ kg, kg ∈ absPaths env ["/w/A.txt"] → m !! kg = None.
Proof.
  intros env e s d.
  apply (direct_files_before_fallback_not_copied env e s
           ["/w/A.txt"] "/w/B.java" "/w/B.java" [] Scenario.snapshotNew).
  - apply (reachable_wf (λ _, Ok Scenario.baseline)).
    apply reach_InitSync, reach_init.
  - reflexivity.
  - reflexivity.
  - reflexivity.
  - intros g [->|[->|H]%elem_of_cons]%elem_of_cons; [| |inversion H].
    + exists "/w/A.txt". split; [reflexivity|].
      intros ?%list_elem_of_singleton. discriminate.
    + exists "/w/B.java". split; [reflexivity|].
      intros ?%list_elem_of_singleton. discriminate.
  - intros g ->%list_elem_of_singleton.
    exists "/w/A.txt",
      ({| Dest := ["/c/A.txt"]; FileTime := 5%Z; IsDirect := true |}), 7%Z.
    split_and!; vm_compute; reflexivity.
  - reflexivity.
  - intros v Hv. vm_compute in Hv. by injection Hv as <-.
  - vm_compute; reflexivity.
Defined.

(** * What a failed call leaves in the store *)

(** Whatever way the loop of the fast path ends, a key of [currSyncMap]
    is what it was, or it is the resolved form of a modified path that
    was a direct entry and now carries the time [Stat] gives. *)
Lemma directLoop_effect env r modified :
  ∀ h matches k,
    let h' := loopHeap (directLoop env h r matches modified) in
    mapIndex h' r k = mapIndex h r k ∨
    ∃ f v v',
      f ∈ modified ∧ toAbs env f = Ok k ∧
      mapIndex h r k = Some v ∧ IsDirect v = true ∧
      mapIndex h' r k = Some v' ∧ Dest v' = Dest v ∧ IsDirect v' = true ∧
      Stat env k = Ok (FileTime v').
Proof.
  induction modified as [|f rest IH]; intros h matches k; simpl; [by left|].
  destruct (toAbs env f) as [k0|] eqn:Hf; simpl; [|by left].
  destruct (mapIndex h r k0) as [v0|] eqn:Hidx; simpl; [|by left].
  destruct (IsDirect v0) eqn:Hdir; simpl; [|by left].
  destruct (Stat env k0) as [t|] eqn:Hstat; simpl; [|by left].
  set (v0' := {| Dest := Dest v0; FileTime := t; IsDirect := true |}).
  pose proof (mapIndex_mapAssign h r k0 v0 v0' k Hidx) as Hassign.
  destruct (IH (mapAssign h r k0 v0') (<[k0 := Dest v0]> matches) k)
    as [Hsame|(g & v1 & v' & Hg & Hgk & Hv1 & Hd1 & Hv' & Hdest & Hdir' & Ht)].
  - rewrite Hsame, Hassign. case_decide as Hk; [|by left]. subst k.
    right. exists f, v0, v0'. split_and!; [left|done..].
  - right. rewrite Hassign in Hv1. case_decide as Hk.
    + subst k. injection Hv1 as <-.
      exists f, v0, v'. split_and!; [left|done..].
    + exists g, v1, v'. split_and!; [by right|done..].
Qed.

(** X19.  When [GetSyncDiff] returns an error, [toCopy] and [toDelete]
    are nil and the store binds every project key to the map object it
    was bound to.  Each key of the map cached for the project key is
    exactly what it was, or it is the resolved form of a modified path,
    was a direct entry, and carries the same destinations with the time
    [Stat] gives: what the fast path wrote before the error stays.  The
    heap is untouched when the event adds a file, and on a well-formed
    store the maps of the other project keys are what they were. *)
Theorem hard_error_store_effect gsm env e s :
  let s' := (GetSyncDiff gsm env e s).1 in
  let d := (GetSyncDiff gsm env e s).2 in
  let key := getProjectKey env in
  err d ≠ None →
  toCopy d = None ∧ toDelete d = None ∧
  syncLists s' = syncLists s ∧
  (is_Some (cached s' key) ↔ is_Some (cached s key)) ∧
  (∀ k,
     cached s' key ≫= (.!! k) = cached s key ≫= (.!! k) ∨
     ∃ f v v',
       f ∈ Modified e ∧ toAbs env f = Ok k ∧
       cached s key ≫= (.!! k) = Some v ∧ IsDirect v = true ∧
       cached s' key ≫= (.!! k) = Some v' ∧
       Dest v' = Dest v ∧ IsDirect v' = true ∧
       Stat env k = Ok (FileTime v')) ∧
  (Added e ≠ [] → heap s' = heap s) ∧
  (wfState s → ∀ key', key' ≠ key → cached s' key' = cached s key').
Proof.
  intros s' d key Herr. subst s' d key.
  destruct (GetSyncDiff gsm env e s) as [s' d] eqn:Hrun. simpl in *.
  destruct (GetSyncDiff_anatomy _ _ _ _ _ _ Hrun)
    as (h1 & Hh1 & Hadd & Hloop & Hcases).
  assert (syncLists s' = syncLists s ∧ heap s' = h1 ∧
          toCopy d = None ∧ toDelete d = None) as (Hs & Hh & Hcopy & Hdel).
  { destruct Hcases as [(? & ? & _ & ? & Hc)|[(? & ? & _ & ? & _ & ->)|
                        (N & _ & _ & _ & _ & ->)]]; [|done|done].
    split_and!; [done..|by apply Hc|done]. }
  subst h1. split_and!; [done..| | |done|].
  - unfold cached. rewrite Hs.
    destruct (syncLists s !! getProjectKey env) as [l|]; simpl; [|done].
    rewrite <- !elem_of_dom. by rewrite (heapRefresh_dom _ _ _ Hh1).
  - intros k. rewrite !cached_lookup, Hs.
    destruct Hloop as [->| ->]; [by left|].
    apply directLoop_effect.
  - intros Hwf key' Hne. by eapply cached_other.
Qed.

Lemma hard_error_store_effect_witness :
  let gsm := getSyncMap in
  let env := Scenario.world Scenario.fsNew Scenario.absInW
               (Err (External "exit status 1")) in
  let e := Scenario.modified ["/w/A.txt"; "/w/B.java"] in
  let s := Scenario.s0 in
  let s' := (GetSyncDiff gsm env e s).1 in
  let d := (GetSyncDiff gsm env e s).2 in
  let key := getProjectKey env in
  err d ≠ None ∧
  toCopy d = None ∧ toDelete d = None ∧
  syncLists s' = syncLists s ∧
  (is_Some (cached s' key) ↔ is_Some (cached s key)) ∧
  (∀ k,
     cached s' key ≫= (.!! k) = cached s key ≫= (.!! k) ∨
     ∃ f v v',
       f ∈ Modified e ∧ toAbs env f = Ok k ∧
       cached s key ≫= (.!! k) = Some v ∧ IsDirect v = true ∧
       cached s' key ≫= (.!! k) = Some v' ∧
       Dest v' = Dest v ∧ IsDirect v' = true ∧
       Stat env k = Ok (FileTime v')) ∧
  (Added e ≠ [] → heap s' = heap s) ∧
  (wfState s → ∀ key', key' ≠ key → cached s' key' = cached s key').
Proof.
  intros gsm env e s s' d key.
  assert (Ha : err d ≠ None) by (vm_compute; discriminate).
  exact (conj Ha (hard_error_store_effect gsm env e s Ha)).
Defined.
